(** * names.py: structured tag names and grammar expansion

    A shallow embedding of [names.py] (ASIM naming conventions) and the
    properties of its name decomposer, case converter, matcher, grammar
    engine, description merger and registry.

    Python strings are modelled as [list ascii].  The character predicates
    and case mappings below are those of Python on the ASCII range; a
    character above U+007F is treated as an uncased symbol.  Python's
    arbitrary-precision [int] is [Z]; [dict] is [gmap]; [set] is [gset]. *)

From Stdlib Require Import ZArith Ascii String List Bool Lia.
From stdpp Require Import base option list strings gmap sets sorting.

#[local] Open Scope list_scope.

(** ** Python values and builtins *)

Abbreviation str := (list ascii).

(** A string literal of the source. *)
Definition lit (s : string) : str := list_ascii_of_string s.

(** Exceptions the modelled code can raise, and [exit(n)]. *)
Inductive exn : Type :=
  | IndexError
  | ValueError
  | AssertionError
  | SystemExit (code : Z).

Inductive result (A : Type) : Type :=
  | Ok (a : A)
  | Raise (e : exn).
Arguments Ok {A} a.
Arguments Raise {A} e.

#[global] Instance result_ret : MRet result := fun A a => Ok a.

#[global] Instance result_bind : MBind result := fun A B k r =>
  match r with
  | Ok a => k a
  | Raise e => Raise e
  end.

#[global] Instance exn_eq_dec : EqDecision exn.
Proof. solve_decision. Defined.

#[global] Instance result_eq_dec {A} `{EqDecision A} : EqDecision (result A).
Proof. solve_decision. Defined.

Module Char.

Definition code (c : ascii) : nat := nat_of_ascii c.

Definition between (lo hi : nat) (c : ascii) : bool :=
  (lo <=? code c)%nat && (code c <=? hi)%nat.

(** The regex classes [[A-Z]], [[a-z]], [[0-9]] and [[0-9a-z]]. *)
Definition is_AZ : ascii -> bool := between 65 90.
Definition is_az : ascii -> bool := between 97 122.
Definition is_09 : ascii -> bool := between 48 57.
Definition is_09az (c : ascii) : bool := is_09 c || is_az c.

(** [c.isdigit()], [c.isupper()] on one character. *)
Definition isdigit : ascii -> bool := is_09.
Definition isupper : ascii -> bool := is_AZ.

(** [c.upper()], [c.lower()] on one character. *)
Definition upper (c : ascii) : ascii :=
  if is_az c then ascii_of_nat (code c - 32) else c.
Definition lower (c : ascii) : ascii :=
  if is_AZ c then ascii_of_nat (code c + 32) else c.

(** Whitespace removed by [lstrip], [rstrip] and [int]:
    tab, LF, VT, FF, CR, FS, GS, RS, US and space. *)
Definition isspace (c : ascii) : bool :=
  between 9 13 c || between 28 32 c.

End Char.

(** [s.lower()] *)
Definition str_lower (s : str) : str := map Char.lower s.

(** The longest prefix of [s] whose characters satisfy [p], and the rest:
    what a greedy starred character class consumes. *)
Fixpoint span (p : ascii -> bool) (s : str) : str * str :=
  match s with
  | c :: r => if p c then let '(m, t) := span p r in (c :: m, t) else ([], s)
  | [] => ([], [])
  end.

(** [s.split(sep)] for a one-character separator. *)
Fixpoint split (sep : ascii) (s : str) : list str :=
  match s with
  | [] => [[]]
  | c :: r =>
      if decide (c = sep) then [] :: split sep r
      else match split sep r with
           | h :: t => (c :: h) :: t
           | [] => [[c]]
           end
  end.

(** [sep.join(l)] *)
Fixpoint join (sep : str) (l : list str) : str :=
  match l with
  | [] => []
  | [x] => x
  | x :: r => x ++ sep ++ join sep r
  end.

(** ** Name decomposer *)

Definition underscore : ascii := "_"%char.

(** One match of [[A-Z][a-z]*[0-9a-z]*] at the head of [s]: the matched
    text and what follows it. *)
Definition match_part (s : str) : option (str * str) :=
  match s with
  | c :: r =>
      if Char.is_AZ c then
        let '(m1, r1) := span Char.is_az r in
        let '(m2, r2) := span Char.is_09az r1 in
        Some (c :: m1 ++ m2, r2)
      else None
  | [] => None
  end.

(** [re.sub] of the part pattern with the replacement [_\1_]: every match,
    found scanning from the left, is wrapped in underscores; other
    characters are copied.  A match is never empty, so [length s] steps
    suffice. *)
Fixpoint re_sub_part (fuel : nat) (s : str) : str :=
  match fuel with
  | O => s
  | S f =>
      match match_part s with
      | Some (m, rest) => underscore :: m ++ underscore :: re_sub_part f rest
      | None =>
          match s with
          | [] => []
          | c :: r => c :: re_sub_part f r
          end
      end
  end.

Definition parts (nm : str) : list str :=
  let p := split underscore (re_sub_part (length nm) nm) in
  filter (fun pn => pn ≠ []) p.

Definition parts_join (pnl : list str) : str := concat pnl.


(** [l[i]] on a list or string, negative indices counting from the end. *)
Definition index {A} (l : list A) (i : Z) : result A :=
  let n := Z.of_nat (length l) in
  let j := if (i <? 0)%Z then (i + n)%Z else i in
  if (0 <=? j)%Z && (j <? n)%Z then
    match l !! Z.to_nat j with
    | Some x => Ok x
    | None => Raise IndexError
    end
  else Raise IndexError.

(** [s.lstrip()], [s.rstrip()] and the source's [strip]. *)
Definition lstrip (s : str) : str := snd (span Char.isspace s).
Definition rstrip (s : str) : str := rev (lstrip (rev s)).
Definition strip (s : str) : str := rstrip (lstrip s).

(** The whitespace [int] skips around a numeral: tab, LF, VT, FF, CR and
    space.  (FS, GS, RS and US, which [strip] removes, stay and make the
    numeral invalid.) *)
Definition int_space (c : ascii) : bool :=
  Char.between 9 13 c || bool_decide (c = " "%char).

Definition int_strip (s : str) : str :=
  rev (snd (span int_space (rev (snd (span int_space s))))).

(** [int(s)] on a string: surrounding whitespace is skipped, one sign is
    allowed, and the digits may be grouped by single underscores. *)
Definition digit_val (c : ascii) : Z := Z.of_nat (Char.code c - 48).

Fixpoint int_digits (acc : Z) (after_digit : bool) (s : str) : option Z :=
  match s with
  | [] => if after_digit then Some acc else None
  | c :: r =>
      if Char.isdigit c then int_digits (10 * acc + digit_val c) true r
      else if bool_decide (c = underscore) && after_digit
           then int_digits acc false r
           else None
  end.

Definition py_int (s : str) : result Z :=
  let t := int_strip s in
  let '(neg, ds) :=
    match t with
    | c :: r =>
        if bool_decide (c = "-"%char) then (true, r)
        else if bool_decide (c = "+"%char) then (false, r)
        else (false, t)
    | [] => (false, t)
    end in
  match int_digits 0 false ds with
  | Some n => Ok (if neg then (- n)%Z else n)
  | None => Raise ValueError
  end.

(** [str(n)] on an integer. *)
Definition digit_char (d : Z) : ascii := ascii_of_nat (48 + Z.to_nat d).

Fixpoint str_digits (fuel : nat) (n : Z) (acc : str) : str :=
  match fuel with
  | O => acc
  | S f =>
      let acc' := digit_char (n mod 10) :: acc in
      if (n <? 10)%Z then acc' else str_digits f (n / 10) acc'
  end.

Definition py_str (n : Z) : str :=
  if (n <? 0)%Z then "-"%char :: str_digits (S (Z.to_nat (- n))) (- n) []
  else str_digits (S (Z.to_nat n)) n [].

Definition valid_name (nm : str) : bool := true.

Definition device (nm : str) : result str := index (parts nm) 0.

(** [[i for i in range(0, len(nd)) if nd[i].isdigit()]] *)
Definition digit_positions (nd : str) : list nat :=
  List.filter
    (fun i => match nd !! i with Some c => Char.isdigit c | None => false end)
    (seq 0 (length nd)).

Definition device_number (nm : str) : result Z :=
  nd ← device nm;
  let digits := digit_positions nd in
  d0 ← index digits 0;
  dev ← device nd;
  py_int (drop d0 dev).

Definition is_parameter (nm : str) : result bool :=
  p ← index (parts nm) (-1);
  Ok (bool_decide (p = lit "Pa")).

Definition kind (nm : str) : result str :=
  is_parameter nm ≫= fun b : bool =>
  if b then index (parts nm) (-2) else index (parts nm) (-1).

(** ** Case converter *)

Definition name_to_lower (nm : str) : result str :=
  if valid_name nm then Ok (str_lower (join [underscore] (parts nm)))
  else Raise AssertionError.

(** The loop of [lower_to_name] over the remaining characters, with the
    flag [u] and the text [r] built so far. *)
Fixpoint lower_to_name_loop (u : bool) (r : str) (nm : str) : str :=
  match nm with
  | [] => r
  | c :: nm' =>
      if bool_decide (c = underscore) then lower_to_name_loop true r nm'
      else lower_to_name_loop false (r ++ [if u then Char.upper c else c]) nm'
  end.

Definition lower_to_name (nm : str) : str := lower_to_name_loop true [] nm.

(** ** Matcher *)

(** A glob pattern as [fnmatch.translate] reads it: [*], [?], a bracket
    expression (negated by a leading [!]), or a literal character. *)
Inductive glob : Type :=
  | GStar
  | GAny
  | GSet (neg : bool) (body : str)
  | GLit (c : ascii).

(** Membership in the body of a bracket expression: [lo-hi] is a range,
    anything else stands for itself. *)
Fixpoint set_mem (c : ascii) (body : str) : bool :=
  match body with
  | [] => false
  | lo :: t =>
      match t with
      | x :: hi :: r =>
          if bool_decide (x = "-"%char)
          then Char.between (Char.code lo) (Char.code hi) c || set_mem c r
          else bool_decide (c = lo) || set_mem c t
      | _ => bool_decide (c = lo) || set_mem c t
      end
  end.

(** The text of a bracket expression, given what follows its [[]: an
    optional [!], an optional []] taken literally, then everything up to
    the closing []].  [None] when the bracket is never closed. *)
Definition close_bracket (s : str) : option (str * str) :=
  let '(bang, s1) :=
    match s with
    | c :: t => if bool_decide (c = "!"%char) then ([c], t) else ([], s)
    | [] => ([], s)
    end in
  let '(first, s2) :=
    match s1 with
    | c :: t => if bool_decide (c = "]"%char) then ([c], t) else ([], s1)
    | [] => ([], s1)
    end in
  let '(body, s3) := span (fun c => negb (bool_decide (c = "]"%char))) s2 in
  match s3 with
  | _ :: rest => Some (bang ++ first ++ body, rest)
  | [] => None
  end.

Fixpoint translate (fuel : nat) (pat : str) : list glob :=
  match fuel, pat with
  | S f, c :: r =>
      if bool_decide (c = "*"%char) then GStar :: translate f r
      else if bool_decide (c = "?"%char) then GAny :: translate f r
      else if bool_decide (c = "["%char) then
        match close_bracket r with
        | Some (stuff, rest) =>
            match stuff with
            | b :: body =>
                if bool_decide (b = "!"%char)
                then GSet true body :: translate f rest
                else GSet false stuff :: translate f rest
            | [] => GSet false stuff :: translate f rest
            end
        | None => GLit c :: translate f r
        end
      else GLit c :: translate f r
  | _, _ => []
  end.

(** Does the whole of [s] match the pattern [p]? *)
Fixpoint glob_match (p : list glob) (s : str) : bool :=
  match p with
  | [] => match s with [] => true | _ :: _ => false end
  | GStar :: p' =>
      (fix star (s : str) : bool :=
         glob_match p' s || match s with [] => false | _ :: s' => star s' end) s
  | GAny :: p' => match s with _ :: s' => glob_match p' s' | [] => false end
  | GSet neg body :: p' =>
      match s with
      | c :: s' => xorb neg (set_mem c body) && glob_match p' s'
      | [] => false
      end
  | GLit c :: p' =>
      match s with
      | x :: s' => bool_decide (x = c) && glob_match p' s'
      | [] => false
      end
  end.

(** [fnmatch.fnmatchcase(n, pat)] *)
Definition fnmatchcase (n pat : str) : bool :=
  glob_match (translate (length pat) pat) n.

Definition bar : ascii := "|"%char.

(** [match(n, pat)]: the loop returns at the first alternative that
    matches. *)
Definition match_ (n pat : str) : bool :=
  existsb (fun p => fnmatchcase n p) (split bar pat).

(** ** Grammar engine *)

(** [Some rest] when [s] is [p] followed by [rest]. *)
Fixpoint starts_with (p s : str) : option str :=
  match p, s with
  | [], _ => Some s
  | a :: p', b :: s' => if bool_decide (a = b) then starts_with p' s' else None
  | _ :: _, [] => None
  end.

(** The text before and after the first occurrence of [old] in [s]. *)
Fixpoint cut (old s : str) : option (str * str) :=
  match starts_with old s with
  | Some rest => Some ([], rest)
  | None =>
      match s with
      | [] => None
      | c :: r =>
          match cut old r with
          | Some (a, b) => Some (c :: a, b)
          | None => None
          end
      end
  end.

(** [s.replace(old, new, 1)] *)
Definition replace1 (old new s : str) : str :=
  match cut old s with
  | Some (a, b) => a ++ new ++ b
  | None => s
  end.

(** [s.split(sep, maxsplit)] for a separator string. *)
Fixpoint split_str (sep : str) (maxsplit : nat) (s : str) : list str :=
  match maxsplit with
  | O => [s]
  | S n =>
      match cut sep s with
      | Some (a, b) => a :: split_str sep n b
      | None => [s]
      end
  end.

(** [s.find(c)] for a one-character [c]: the first position, or [-1]. *)
Fixpoint find (c : ascii) (s : str) : Z :=
  match s with
  | [] => -1
  | x :: r =>
      if bool_decide (x = c) then 0
      else let k := find c r in if (k =? -1)%Z then (-1)%Z else (k + 1)%Z
  end.

(** Line boundaries of [splitlines]: LF, VT, FF, CR, FS, GS, RS; a CR LF
    pair is one boundary. *)
Definition is_linebreak (c : ascii) : bool :=
  Char.between 10 13 c || Char.between 28 30 c.

Definition LF : ascii := ascii_of_nat 10.
Definition CR : ascii := ascii_of_nat 13.

(** [s.splitlines()], scanning with the current line [cur]; [after_cr]
    says the previous character was a CR that already ended a line. *)
Fixpoint splitlines_loop (cur : str) (after_cr : bool) (s : str) : list str :=
  match s with
  | [] => match cur with [] => [] | _ :: _ => [cur] end
  | c :: r =>
      if bool_decide (c = LF) && after_cr then splitlines_loop [] false r
      else if is_linebreak c
           then cur :: splitlines_loop [] (bool_decide (c = CR)) r
           else splitlines_loop (cur ++ [c]) false r
  end.

Definition splitlines (s : str) : list str := splitlines_loop [] false s.

Definition lrstrip (s : str) : str := rstrip (lstrip s).

(** What the body of the loop of [bnf_to_rules] reads from one line: the
    key and the value it assigns, or nothing for a blank line, a comment
    or a line that does not split in two at [::=] (the message printed for
    the latter is not modelled). *)
Definition rule_of_line (l : str) : option (str * str) :=
  let l := rstrip (lstrip l) in
  if bool_decide (l ≠ []) && negb (bool_decide (head l = Some "#"%char)) then
    match split_str (lit "::=") 2 l with
    | [a; b] => Some (lrstrip a, lrstrip b)
    | _ => None
    end
  else None.

(** One iteration of the loop of [bnf_to_rules]. *)
Definition bnf_line (g : gmap str str) (l : str) : gmap str str :=
  match rule_of_line l with
  | Some (k, v) => <[k := v]> g
  | None => g
  end.

Definition bnf_to_rules (grammar : str) : gmap str str :=
  foldl bnf_line ∅ (splitlines grammar).

Definition finished (s : str) : bool :=
  bool_decide (find "<"%char s = (-1)%Z) && bool_decide (find bar s = (-1)%Z).

(** [expand_rules(rules, s)].  The recursion of the source need not end
    (a rule may grow the string for ever), so the model counts the depth:
    [None] says the recursion went deeper than [fuel]. *)
Fixpoint expand_rules (fuel : nat) (rules : gmap str str) (s : str)
    : option (gset str) :=
  match fuel with
  | O => None
  | S f =>
      if finished s then Some {[ s ]}
      else
        foldl (fun (results : option (gset str)) '(lhs, rhs) =>
                 foldl (fun (results : option (gset str)) c =>
                          results ≫= fun acc : gset str =>
                          let u := replace1 lhs c s in
                          if bool_decide (u ≠ s)
                          then r ← expand_rules f rules u; Some (acc ∪ r)
                          else Some acc)
                       results (split bar rhs))
              (Some ∅) (map_to_list rules)
  end.

(** Lexicographic order on strings, by character code: the order of
    [sorted] on [str]. *)
Fixpoint str_leb (a b : str) : bool :=
  match a, b with
  | [], _ => true
  | _ :: _, [] => false
  | x :: a', y :: b' =>
      if (Char.code x <? Char.code y)%nat then true
      else if (Char.code y <? Char.code x)%nat then false
      else str_leb a' b'
  end.

Definition str_le (a b : str) : Prop := Is_true (str_leb a b).

#[global] Instance str_le_dec : RelDecision str_le.
Proof. intros a b. unfold str_le. apply _. Defined.

Definition sorted (l : list str) : list str := merge_sort str_le l.

Definition expand_bnf (fuel : nat) (grammar start : str) : option (list str) :=
  r ← expand_rules fuel (bnf_to_rules grammar) start;
  Some (sorted (elements r)).

(** ** Module state *)

(** The dictionaries of the module: [named], [partnamed], [ruled],
    [unitd], [shortd], [longd]. *)
Record tables : Type := Tables {
  named : gmap str bool;
  partnamed : gmap str str;
  ruled : gmap str str;
  unitd : gmap str str;
  shortd : gmap str str;
  longd : gmap str str
}.

Definition clear_names : tables := Tables ∅ ∅ ∅ ∅ ∅ ∅.

(** The pattern [RE_NAME]: only letters, digits and underscores. *)
Definition name_char (c : ascii) : bool :=
  Char.is_AZ c || Char.is_az c || bool_decide (c = underscore) || Char.is_09 c.

Definition re_name (nm : str) : bool := forallb name_char nm.

(** [name(nm, un, sh, lo)] *)
Definition name (nm un sh lo : str) (t : tables) : result tables :=
  if valid_name nm then
    Ok (Tables (<[nm:=true]> (named t)) (partnamed t) (ruled t)
               (<[nm:=un]> (unitd t)) (<[nm:=sh]> (shortd t))
               (<[nm:=lo]> (longd t)))
  else Raise AssertionError.

Definition bigname (nm : str) : result bool :=
  c ← index nm 0; Ok (Char.isupper c).

(** The predicate [f] of [names]; [and] evaluates its right operand only
    when the left one is true. *)
Definition names_filter (only excludes device_pat : str) (onlybig : bool)
    (v : str) : result bool :=
  if match_ v only then
    if negb (match_ v excludes) then
      device v ≫= fun d : str =>
      if match_ d device_pat then
        if onlybig then bigname v else Ok true
      else Ok false
    else Ok false
  else Ok false.

(** [filter(f, l)] for a predicate that may raise. *)
Fixpoint filter_result {A} (f : A -> result bool) (l : list A)
    : result (list A) :=
  match l with
  | [] => Ok []
  | x :: r =>
      f x ≫= fun b : bool =>
      kept ← filter_result f r;
      Ok (if b then x :: kept else kept)
  end.

(** [names(only, excludes, device_pat, onlybig)] over the registered
    names. *)
Definition names (only excludes device_pat : str) (onlybig : bool)
    (t : tables) : result (list str) :=
  r ← filter_result (names_filter only excludes device_pat onlybig)
        (elements (dom (named t)));
  Ok (sorted r).

(** ** Description merger *)

Definition set_nonempty (k v : str) (m : gmap str str) : gmap str str :=
  if bool_decide (v ≠ []) then <[k:=v]> m else m.

Definition lt_sign : ascii := "<"%char.

(** The body of the loop of [read_description] for one data row, after
    its fields were stripped. *)
Definition description_row (nm rl un sh lo : str)
    (g : gmap str str) (t : tables) : gmap str str * tables :=
  let '(g, t) :=
    if bool_decide (0 < length nm)%nat && bool_decide (head nm = Some "#"%char)
    then (g, t)
    else if bool_decide (lt_sign ∈ nm) then
      if bool_decide (length rl ≠ 0%nat) && bool_decide (head rl = Some bar) then
        match g !! nm with
        | None => (<[nm := drop 1 rl]> g, t)
        | Some old =>
            if bool_decide (old = []) then (<[nm := drop 1 rl]> g, t)
            else (<[nm := old ++ rl]> g, t)
        end
      else (<[nm := rl]> g, t)
    else if bool_decide (lt_sign ∈ rl) then
      match g !! rl with
      | Some old => (<[rl := old ++ bar :: nm]> g, t)
      | None => (<[rl := nm]> g, t)
      end
    else
      (g, Tables (named t) (<[nm := strip nm]> (partnamed t))
                 (<[nm := strip rl]> (ruled t))
                 (unitd t) (shortd t) (longd t)) in
  (g, Tables (named t) (partnamed t) (ruled t)
             (set_nonempty nm un (unitd t))
             (set_nonempty nm sh (shortd t))
             (set_nonempty nm lo (longd t))).

(** The state of the loop: the rules [g], the counter [line], the
    module's tables. *)
Definition reader : Type := gmap str str * nat * tables.

(** One iteration over a row of the CSV reader. *)
Definition read_row (acc : reader) (row : list str) : result reader :=
  let '(g, line, t) := acc in
  let line := S line in
  if bool_decide (length row = 0%nat) then Ok (g, line, t)
  else
    let row := if bool_decide (length row = 4%nat) then row ++ [[]] else row in
    if bool_decide (length row ≠ 5%nat) then Raise (SystemExit 1)
    else if bool_decide (line = 1%nat) then Ok (g, line, t)
    else
      c0 ← index row 0; c1 ← index row 1; c2 ← index row 2;
      c3 ← index row 3; c4 ← index row 4;
      let '(g', t') :=
        description_row (strip c0) (strip c1) (strip c2) (strip c3) (strip c4)
                        g t in
      Ok (g', line, t').

Fixpoint read_rows (rows : list (list str)) (acc : reader) : result reader :=
  match rows with
  | [] => Ok acc
  | row :: rest => acc' ← read_row acc row; read_rows rest acc'
  end.

(** [read_description(fn)], on the rows the CSV reader yields for the
    file: the rules it returns and the tables it leaves. *)
Definition read_description (rows : list (list str)) (t : tables)
    : result (gmap str str * tables) :=
  read_rows rows (∅, 0%nat, t) ≫= fun acc : reader =>
  Ok (acc.1.1, acc.2).

(** ** Notions used to state the properties *)

(** The substitution of [parts], with the fuel [parts] gives it. *)
Definition re_sub (s : str) : str := re_sub_part (length s) s.

(** The non-empty segments between underscores. *)
Definition tokens (t : str) : list str :=
  filter (fun pn => pn ≠ []) (split underscore t).

(** What one match looks like: an upper-case letter, then lower-case
    letters and digits. *)
Definition part_shape (p : str) : Prop :=
  exists c w, p = c :: w /\ Char.is_AZ c = true /\ forallb Char.is_09az w = true.

(** The parameter/kind law for a base name [b], as the specification
    words it: [is_parameter(b + "Pa")] is true and [kind(b + "Pa")] is
    [kind(b)]. *)
Definition parameter_kind_law (b : str) : Prop :=
  is_parameter (b ++ lit "Pa") = Ok true /\ kind (b ++ lit "Pa") = kind b.

(** The generators of the source's property tests: a prefix
    [[A-Z][a-z]*], a suffix [[A-Z_]*], a name [[A-Z][A-Za-z0-9]*]. *)
Definition re_prefix (p : str) : bool :=
  match p with
  | c :: r => Char.is_AZ c && forallb Char.is_az r
  | [] => false
  end.

Definition re_suffix (s : str) : bool :=
  forallb (fun c => Char.is_AZ c || bool_decide (c = underscore)) s.

Definition alnum (c : ascii) : bool :=
  Char.is_AZ c || Char.is_az c || Char.is_09 c.

Definition re_camel (nm : str) : bool :=
  match nm with
  | c :: r => Char.is_AZ c && forallb alnum r
  | [] => false
  end.

(** The empty-pattern law for a value [v], as the specification words
    it: [match(v, "")] is false. *)
Definition empty_pattern_matches_nothing (v : str) : Prop :=
  match_ v [] = false.

(** The strings [expand_rules] recurses on from an unfinished [s]: for
    every rule and every alternative of its right-hand side, [s] with the
    first occurrence of the left-hand side replaced, when that changes
    [s]. *)
Definition branches (rules : gmap str str) (s : str) : list str :=
  '(lhs, rhs) ← map_to_list rules;
  c ← split bar rhs;
  let u := replace1 lhs c s in
  if bool_decide (u ≠ s) then [u] else [].

(** [expand_rules(rules, s)] returns the set [r]. *)
Definition returns (rules : gmap str str) (s : str) (r : gset str) : Prop :=
  exists fuel, expand_rules fuel rules s = Some r.

(** [results.union(r)] on results that may be missing. *)
Definition union_results (acc r : option (gset str)) : option (gset str) :=
  a ← acc; x ← r; Some (a ∪ x).

(** A row the description reader accepts: no field at all (a blank
    line), or four or five fields. *)
Definition field_count_ok (row : list str) : Prop :=
  length row = 0 \/ length row = 4 \/ length row = 5.

#[global] Instance field_count_ok_dec row : Decision (field_count_ok row).
Proof. unfold field_count_ok. apply _. Defined.

(** The malformed-row law, as the specification words it: a row whose
    field count is neither 4 nor 5 aborts the reader. *)
Definition malformed_row_law (rows : list (list str)) (t : tables) : Prop :=
  Exists (fun row => length row ≠ 4 /\ length row ≠ 5) rows ->
  read_description rows t = Raise (SystemExit 1).

(** ** Notions used to state further properties *)

(** A character that is neither an upper-case letter nor an underscore:
    the substitution of [parts] copies it. *)
Definition plain (c : ascii) : bool :=
  negb (Char.is_AZ c) && negb (bool_decide (c = underscore)).

(** A non-empty run of such characters. *)
Definition plain_run (p : str) : Prop :=
  p ≠ [] /\ forallb plain p = true.

(** Nothing, or a first character outside the class [p]: where a greedy
    starred class stops. *)
Definition stops (p : ascii -> bool) (rest : str) : Prop :=
  match rest with
  | [] => True
  | x :: _ => p x = false
  end.

(** A segment of a lower-case name: a lower-case letter followed by
    lower-case letters and digits. *)
Definition lower_segment (seg : str) : bool :=
  match seg with
  | c :: w => Char.is_az c && forallb Char.is_09az w
  | [] => false
  end.

(** A segment with its first character in upper case. *)
Definition capitalize (seg : str) : str :=
  match seg with
  | c :: w => Char.upper c :: w
  | [] => []
  end.

(** A pattern without [*], [?], [[] and [|]: it stands for itself. *)
Definition literal_char (c : ascii) : bool :=
  negb (bool_decide (c = "*"%char)) && negb (bool_decide (c = "?"%char))
  && negb (bool_decide (c = "["%char)) && negb (bool_decide (c = bar)).

Definition literal_pattern (p : str) : bool := forallb literal_char p.

(** [r] is derived from [s] with the rules: [s] is finished and [r] is
    [s], or [s] is unfinished and [r] is derived from [s] with the first
    occurrence of a left-hand side replaced by one of its alternatives,
    the replacement changing [s]. *)
Inductive derives (rules : gmap str str) : str -> str -> Prop :=
  | derives_finished s :
      finished s = true -> derives rules s s
  | derives_step s lhs rhs c r :
      finished s = false ->
      rules !! lhs = Some rhs ->
      c ∈ split bar rhs ->
      replace1 lhs c s ≠ s ->
      derives rules (replace1 lhs c s) r ->
      derives rules s r.

(** [old] occurs in [s]. *)
Definition occurs (old s : str) : Prop :=
  exists a b, s = a ++ old ++ b.

(** Neither starts nor ends with whitespace. *)
Definition stripped (s : str) : Prop :=
  stops Char.isspace s /\ stops Char.isspace (rev s).

(** A value looked up in a dictionary of the module: found, missing (the
    [KeyError] of the subscript), or not reached because of an earlier
    exception. *)
Inductive lookup (A : Type) : Type :=
  | Found (a : A)
  | KeyError (key : str)
  | Failed (e : exn).
Arguments Found {A} a.
Arguments KeyError {A} key.
Arguments Failed {A} e.

(** [units(nm)] *)
Definition units (nm : str) (t : tables) : lookup str :=
  match kind nm with
  | Ok k =>
      match unitd t !! k with
      | Some un => Found un
      | None => KeyError k
      end
  | Raise e => Failed e
  end.

Definition space : ascii := " "%char.

(** [short(nm)] *)
Definition short (nm : str) (t : tables) : str :=
  join [space]
    (map (fun pn => match shortd t !! pn with Some d => d | None => pn end)
         (parts nm)).

(** [long(nm)] *)
Definition long (nm : str) (t : tables) : str :=
  match longd t !! nm with
  | Some d => d
  | None => []
  end.

(** The tables [t'] keep what [t] holds: [named] is the same and no key
    of the other dictionaries is gone. *)
Definition keeps (t t' : tables) : Prop :=
  named t' = named t
  /\ dom (partnamed t) ⊆ dom (partnamed t')
  /\ dom (ruled t) ⊆ dom (ruled t')
  /\ dom (unitd t) ⊆ dom (unitd t')
  /\ dom (shortd t) ⊆ dom (shortd t')
  /\ dom (longd t) ⊆ dom (longd t').

(** Every key of the rule table carries a [<]. *)
Definition keys_marked (g : gmap str str) : Prop :=
  forall k v, g !! k = Some v -> lt_sign ∈ k.

(** The rule table of a result of [read_description], or its exception. *)
Definition rules_of (r : result (gmap str str * tables)) : result (gmap str str) :=
  match r with
  | Ok (g, _) => Ok g
  | Raise e => Raise e
  end.

(** Two states of the reader's loop past the first row with the same
    rules, or the same exception. *)
Definition same_rules (r1 r2 : result reader) : Prop :=
  match r1, r2 with
  | Ok (g1, line1, _), Ok (g2, line2, _) => g1 = g2 /\ line1 ≠ 0 /\ line2 ≠ 0
  | Raise e1, Raise e2 => e1 = e2
  | _, _ => False
  end.

(** ** The reference expansion, in the specification's words *)

(** [s] is finished: it contains no [<] and no [|]. *)
Definition no_marker (s : str) : Prop :=
  (lt_sign ∉ s) /\ (bar ∉ s).

(** [c] is one of the [|]-separated alternatives of [rhs]: [rhs] is
    pieces without [|], written with a [|] between them, and [c] is one
    of these pieces. *)
Definition alternative (c rhs : str) : Prop :=
  exists ps, join [bar] ps = rhs /\ Forall (fun p => bar ∉ p) ps /\ c ∈ ps.

(** [s'] is [s] with the first occurrence of [lhs] replaced by [c]: [lhs]
    stands in [s] after [a], nowhere earlier, and [s'] has [c] in its
    place; or [lhs] does not occur and [s'] is [s]. *)
Definition first_replaced (lhs c s s' : str) : Prop :=
  (exists a b,
     s = a ++ lhs ++ b
     /\ (forall a' b', s = a' ++ lhs ++ b' -> length a <= length a')
     /\ s' = a ++ c ++ b)
  \/ (~ occurs lhs s /\ s' = s).

(** [s'] is a branch of [s]: for some rule and some alternative of its
    right-hand side, [s] with the first occurrence of the left-hand side
    replaced by the alternative, the replacement changing [s]. *)
Definition branch (rules : gmap str str) (s s' : str) : Prop :=
  exists lhs rhs c,
    rules !! lhs = Some rhs /\ alternative c rhs
    /\ first_replaced lhs c s s' /\ s' ≠ s.

(** The reference definition of the expansion: [{s}] for a finished [s];
    otherwise every branch has an expansion and [r] is the union of the
    expansions of the branches. *)
Definition expansion_reference (rules : gmap str str) (s : str) (r : gset str)
    : Prop :=
  (no_marker s -> r = {[ s ]})
  /\ (~ no_marker s ->
      (forall s', branch rules s s' -> exists r', returns rules s' r')
      /\ (forall x,
            x ∈ r <->
            exists s' r', branch rules s s' /\ returns rules s' r' /\ x ∈ r')).

(** * Properties *)

(** ** Characters *)

Lemma AZ_not_az c : Char.is_AZ c = true -> Char.is_az c = false.
Proof.
  unfold Char.is_AZ, Char.is_az, Char.between.
  rewrite andb_true_iff, andb_false_iff, !Nat.leb_le, !Nat.leb_gt. lia.
Qed.

Lemma AZ_not_09az c : Char.is_AZ c = true -> Char.is_09az c = false.
Proof.
  unfold Char.is_09az, Char.is_09, Char.is_AZ, Char.is_az, Char.between.
  rewrite andb_true_iff, orb_false_iff, !andb_false_iff, !Nat.leb_le, !Nat.leb_gt.
  lia.
Qed.

Lemma AZ_not_underscore c : Char.is_AZ c = true -> c ≠ underscore.
Proof. intros H ->. discriminate H. Qed.

Lemma lower09az_not_underscore c : Char.is_09az c = true -> c ≠ underscore.
Proof. intros H ->. discriminate H. Qed.

Lemma az_09az c : Char.is_az c = true -> Char.is_09az c = true.
Proof. unfold Char.is_09az. intros ->. apply orb_true_r. Qed.

(** ** Splitting and joining *)

Lemma span_app p s m t : span p s = (m, t) -> s = m ++ t.
Proof.
  revert m t. induction s as [|c r IH]; simpl; intros m t H.
  - by inversion H.
  - destruct (p c).
    + destruct (span p r) as [m' t'] eqn:E. inversion H; subst.
      simpl. f_equal. by apply IH.
    + by inversion H.
Qed.

Lemma span_all p s m t : span p s = (m, t) -> forallb p m = true.
Proof.
  revert m t. induction s as [|c r IH]; simpl; intros m t H.
  - by inversion H.
  - destruct (p c) eqn:Hc.
    + destruct (span p r) as [m' t'] eqn:E. inversion H; subst.
      simpl. rewrite Hc. eauto.
    + by inversion H.
Qed.

Lemma span_stop p s m t :
  span p s = (m, t) -> match t with [] => True | c :: _ => p c = false end.
Proof.
  revert m t. induction s as [|c r IH]; simpl; intros m t H.
  - by inversion H.
  - destruct (p c) eqn:Hc.
    + destruct (span p r) as [m' t'] eqn:E. inversion H; subst.
      exact (IH _ _ eq_refl).
    + inversion H; subst. exact Hc.
Qed.

(** A span is not disturbed by text appended behind a character that
    stops it. *)
Lemma span_app_stop p s c t :
  p c = false ->
  span p (s ++ c :: t) = ((span p s).1, (span p s).2 ++ c :: t).
Proof.
  intros Hc. induction s as [|x r IH]; simpl.
  - by rewrite Hc.
  - destruct (p x); [|done]. rewrite IH. by destruct (span p r).
Qed.

Lemma span_forall p s : forallb p s = true -> span p s = (s, []).
Proof.
  induction s as [|x r IH]; simpl; [done|].
  rewrite andb_true_iff. intros [-> H]. by rewrite IH.
Qed.

Lemma split_not_nil sep s : split sep s ≠ [].
Proof.
  destruct s as [|c r]; simpl; [done|].
  destruct (decide (c = sep)); [done|]. by destruct (split sep r).
Qed.

Lemma concat_split sep s :
  concat (split sep s) = filter (fun c => c ≠ sep) s.
Proof.
  induction s as [|c r IH]; simpl; [done|].
  destruct (decide (c = sep)) as [->|Hne].
  - rewrite filter_cons_False by naive_solver. by simpl.
  - rewrite filter_cons_True by done. rewrite <- IH.
    destruct (split sep r) eqn:E; [|done]. by apply split_not_nil in E.
Qed.

Lemma concat_filter_nonempty (l : list str) :
  concat (filter (fun pn => pn ≠ []) l) = concat l.
Proof.
  induction l as [|x l IH]; [done|].
  destruct (decide (x = [])) as [->|Hx].
  - rewrite filter_cons_False by naive_solver. by simpl.
  - rewrite filter_cons_True by done. simpl. by rewrite IH.
Qed.

(** Splitting a text that has no separator in its first segment. *)
Lemma split_app sep w t :
  sep ∉ w -> split sep (w ++ sep :: t) = w :: split sep t.
Proof.
  induction w as [|c w IH]; simpl; intros Hw.
  - by rewrite decide_True.
  - rewrite decide_False by set_solver. rewrite IH by set_solver. done.
Qed.

Lemma split_no_sep sep w : sep ∉ w -> split sep w = [w].
Proof.
  induction w as [|c w IH]; simpl; intros Hw; [done|].
  rewrite decide_False by set_solver. rewrite IH by set_solver. done.
Qed.

(** ** The substitution of [parts] *)

Lemma match_part_app s m rest : match_part s = Some (m, rest) -> s = m ++ rest.
Proof.
  destruct s as [|c r]; simpl; [done|].
  destruct (Char.is_AZ c); [|done].
  destruct (span Char.is_az r) as [m1 r1] eqn:E1.
  destruct (span Char.is_09az r1) as [m2 r2] eqn:E2.
  intros H. inversion H; subst.
  apply span_app in E1, E2. subst. simpl. by rewrite <- app_assoc.
Qed.

(** The substitution only adds underscores. *)
Lemma re_sub_part_chars fuel s :
  filter (fun c => c ≠ underscore) (re_sub_part fuel s)
  = filter (fun c => c ≠ underscore) s.
Proof.
  revert s. induction fuel as [|f IH]; intros s; simpl; [done|].
  destruct (match_part s) as [[m rest]|] eqn:E.
  - apply match_part_app in E. subst s.
    rewrite filter_cons_False by naive_solver.
    rewrite !filter_app, filter_cons_False by naive_solver. by rewrite IH.
  - destruct s as [|c r]; [done|].
    destruct (decide (c = underscore)) as [->|Hc].
    + rewrite !filter_cons_False by naive_solver. apply IH.
    + rewrite !filter_cons_True by done. by rewrite IH.
Qed.

Lemma filter_id_no_sep (sep : ascii) (s : str) :
  sep ∉ s -> filter (fun c => c ≠ sep) s = s.
Proof.
  induction s as [|c r IH]; intros H; [done|].
  rewrite filter_cons_True by set_solver. rewrite IH by set_solver. done.
Qed.

Lemma concat_parts (s : str) : underscore ∉ s -> concat (parts s) = s.
Proof.
  intros H. unfold parts. simpl.
  rewrite concat_filter_nonempty, concat_split, re_sub_part_chars.
  by apply filter_id_no_sep.
Qed.

(** C1. Parts round-trip: for every string [s] that contains no
    underscore, in particular every such string over the name alphabet,
    [parts_join (parts s)] is [s]: the segments of [parts s], concatenated
    in order, give back [s]. *)
Theorem parts_join_parts (s : str) :
  underscore ∉ s -> parts_join (parts s) = s.
Proof. apply concat_parts. Qed.

Lemma parts_join_parts_witness :
  (underscore ∉ lit "Gen1U1n")
  /\ parts_join (parts (lit "Gen1U1n")) = lit "Gen1U1n".
Proof.
  assert (H : underscore ∉ lit "Gen1U1n")
    by (apply (bool_decide_unpack _); vm_compute; exact I).
  split; [exact H | exact (parts_join_parts (lit "Gen1U1n") H)].
Defined.

(** *** The fuel of the substitution never runs out *)

Lemma match_part_shorter s m rest :
  match_part s = Some (m, rest) -> length rest < length s.
Proof.
  intros H. pose proof (match_part_app _ _ _ H) as Hs.
  destruct s as [|c r]; simpl in H; [done|].
  destruct (Char.is_AZ c); [|done].
  destruct (span Char.is_az r) as [m1 r1].
  destruct (span Char.is_09az r1) as [m2 r2].
  inversion H; subst m rest. rewrite Hs. simpl. rewrite !length_app. lia.
Qed.

Lemma re_sub_part_fuel f1 f2 s :
  length s <= f1 -> length s <= f2 -> re_sub_part f1 s = re_sub_part f2 s.
Proof.
  revert f2 s. induction f1 as [|f1 IH]; intros f2 s H1 H2.
  - destruct s; [|simpl in H1; lia]. by destruct f2.
  - destruct f2 as [|f2].
    + destruct s; [done|simpl in H2; lia].
    + simpl. destruct (match_part s) as [[m rest]|] eqn:E.
      * apply match_part_shorter in E. do 3 f_equal. apply IH; lia.
      * destruct s as [|c r]; [done|]. simpl in *. f_equal. apply IH; lia.
Qed.

Lemma re_sub_nil : re_sub [] = [].
Proof. done. Qed.

Lemma re_sub_match s m rest :
  match_part s = Some (m, rest) ->
  re_sub s = underscore :: m ++ underscore :: re_sub rest.
Proof.
  intros E. unfold re_sub. pose proof (match_part_shorter _ _ _ E) as Hlt.
  destruct (length s) as [|n] eqn:Hn; [lia|].
  simpl. rewrite E. do 3 f_equal. apply re_sub_part_fuel; lia.
Qed.

Lemma re_sub_copy c r :
  Char.is_AZ c = false -> re_sub (c :: r) = c :: re_sub r.
Proof. intros Hc. unfold re_sub. simpl. by rewrite Hc. Qed.

Lemma parts_tokens nm : parts nm = tokens (re_sub nm).
Proof. done. Qed.

Lemma split_sep_app sep t u :
  split sep (t ++ sep :: u) = split sep t ++ split sep u.
Proof.
  induction t as [|c t IH]; simpl.
  - by rewrite decide_True.
  - destruct (decide (c = sep)); [by rewrite IH|].
    rewrite IH. destruct (split sep t) eqn:E; [|done].
    by apply split_not_nil in E.
Qed.

Lemma tokens_sep_app t u : tokens (t ++ underscore :: u) = tokens t ++ tokens u.
Proof. unfold tokens. by rewrite split_sep_app, filter_app. Qed.

Lemma tokens_nil : tokens [] = [].
Proof. done. Qed.

Lemma tokens_word w : w ≠ [] -> underscore ∉ w -> tokens w = [w].
Proof.
  intros Hne Hw. unfold tokens. rewrite split_no_sep by done.
  by rewrite filter_cons_True.
Qed.

Lemma tokens_wrapped w t :
  w ≠ [] -> underscore ∉ w ->
  tokens (underscore :: w ++ underscore :: t) = w :: tokens t.
Proof.
  intros Hne Hw.
  change (underscore :: w ++ underscore :: t)
    with ([] ++ underscore :: (w ++ underscore :: t)).
  by rewrite !tokens_sep_app, tokens_nil, tokens_word.
Qed.

Lemma forallb_az_09az w :
  forallb Char.is_az w = true -> forallb Char.is_09az w = true.
Proof.
  rewrite !forallb_forall. intros H c Hc. apply az_09az. by apply H.
Qed.

Lemma match_part_shape s m rest : match_part s = Some (m, rest) -> part_shape m.
Proof.
  destruct s as [|c r]; simpl; [done|].
  destruct (Char.is_AZ c) eqn:Hc; [|done].
  destruct (span Char.is_az r) as [m1 r1] eqn:E1.
  destruct (span Char.is_09az r1) as [m2 r2] eqn:E2.
  intros H. inversion H; subst. exists c, (m1 ++ m2). split; [done|].
  split; [done|]. rewrite forallb_app.
  apply span_all in E1, E2. by rewrite (forallb_az_09az _ E1), E2.
Qed.

Lemma part_shape_no_underscore p : part_shape p -> underscore ∉ p.
Proof.
  intros (c & w & -> & Hc & Hw). rewrite forallb_forall in Hw.
  intros [Heq|Hin]%elem_of_cons.
  - subst c. discriminate Hc.
  - apply list_elem_of_In, Hw in Hin. discriminate Hin.
Qed.

Lemma part_shape_nonempty p : part_shape p -> p ≠ [].
Proof. by intros (c & w & -> & _). Qed.

(** The first part of a name that starts with a match is that match. *)
Lemma parts_match s m rest :
  match_part s = Some (m, rest) -> parts s = m :: parts rest.
Proof.
  intros E. rewrite !parts_tokens, (re_sub_match _ _ _ E).
  pose proof (match_part_shape _ _ _ E) as Hm.
  apply tokens_wrapped;
    [by apply part_shape_nonempty | by apply part_shape_no_underscore].
Qed.

(** The substitution of a text followed by a text that starts with an
    upper-case letter works on the two separately. *)
Lemma match_part_app_upper s m rest c t :
  Char.is_AZ c = true ->
  match_part s = Some (m, rest) ->
  match_part (s ++ c :: t) = Some (m, rest ++ c :: t).
Proof.
  intros Hc. destruct s as [|x r]; simpl; [done|].
  destruct (Char.is_AZ x); [|done].
  rewrite (span_app_stop _ r c t (AZ_not_az _ Hc)).
  destruct (span Char.is_az r) as [m1 r1]. simpl.
  rewrite (span_app_stop _ r1 c t (AZ_not_09az _ Hc)).
  destruct (span Char.is_09az r1) as [m2 r2]. simpl.
  by intros [= <- <-].
Qed.

Lemma re_sub_app_upper s c t :
  Char.is_AZ c = true -> re_sub (s ++ c :: t) = re_sub s ++ re_sub (c :: t).
Proof.
  intros Hc. remember (length s) as n eqn:Hn. revert s Hn.
  induction n as [n IH] using lt_wf_ind. intros s ->.
  destruct (match_part s) as [[m rest]|] eqn:E.
  - rewrite (re_sub_match _ _ _ (match_part_app_upper _ _ _ _ t Hc E)).
    rewrite (re_sub_match _ _ _ E).
    rewrite (IH (length rest) (match_part_shorter _ _ _ E) rest eq_refl).
    simpl. by rewrite <- !app_assoc.
  - destruct s as [|x r]; [done|].
    assert (Hx : Char.is_AZ x = false).
    { simpl in E. destruct (Char.is_AZ x); [|done].
      destruct (span Char.is_az r) as [m1 r1].
      by destruct (span Char.is_09az r1). }
    simpl. rewrite !(re_sub_copy _ _ Hx).
    rewrite (IH (length r)); [done| simpl; lia | done].
Qed.

(** ** Parameters and kinds *)

Lemma index_last {A} (l : list A) x : index (l ++ [x]) (-1) = Ok x.
Proof.
  unfold index. rewrite length_app. simpl length.
  replace (-1 <? 0)%Z with true by done.
  replace (-1 + Z.of_nat (length l + 1))%Z with (Z.of_nat (length l)) by lia.
  rewrite Nat2Z.id.
  replace (0 <=? Z.of_nat (length l))%Z with true by (symmetry; apply Z.leb_le; lia).
  replace (Z.of_nat (length l) <? Z.of_nat (length l + 1))%Z with true
    by (symmetry; apply Z.ltb_lt; lia).
  simpl. by rewrite list_lookup_middle.
Qed.

Lemma index_before_last {A} (l : list A) x :
  index (l ++ [x]) (-2) = index l (-1).
Proof.
  unfold index. rewrite length_app. simpl length.
  replace (-2 <? 0)%Z with true by done.
  replace (-1 <? 0)%Z with true by done.
  replace (-2 + Z.of_nat (length l + 1))%Z with (-1 + Z.of_nat (length l))%Z by lia.
  destruct l as [|y l] using rev_ind; [done|].
  rewrite length_app. simpl length.
  replace (-1 + Z.of_nat (length l + 1))%Z with (Z.of_nat (length l)) by lia.
  rewrite Nat2Z.id.
  replace (0 <=? Z.of_nat (length l))%Z with true by (symmetry; apply Z.leb_le; lia).
  replace (Z.of_nat (length l) <? Z.of_nat (length l + 1 + 1))%Z with true
    by (symmetry; apply Z.ltb_lt; lia).
  replace (Z.of_nat (length l) <? Z.of_nat (length l + 1))%Z with true
    by (symmetry; apply Z.ltb_lt; lia).
  simpl. rewrite <- app_assoc. simpl. by rewrite !list_lookup_middle.
Qed.

(** Appending the tag adds one part, the tag itself. *)
Lemma parts_app_Pa b : parts (b ++ lit "Pa") = parts b ++ [lit "Pa"].
Proof.
  rewrite !parts_tokens. change (lit "Pa") with ("P"%char :: lit "a").
  rewrite re_sub_app_upper by done.
  change (re_sub ("P"%char :: lit "a")) with (underscore :: lit "Pa_").
  by rewrite tokens_sep_app.
Qed.

Lemma is_parameter_app_Pa b : is_parameter (b ++ lit "Pa") = Ok true.
Proof. unfold is_parameter. by rewrite parts_app_Pa, index_last. Qed.

Lemma kind_app_Pa b : kind (b ++ lit "Pa") = index (parts b) (-1).
Proof.
  unfold kind. rewrite is_parameter_app_Pa. simpl.
  by rewrite parts_app_Pa, index_before_last.
Qed.

(** C6, as amended. For every base name [b], [is_parameter (b + "Pa")] is
    true and [kind (b + "Pa")] is the last part of [b]; it is [kind b]
    when [b] is not itself a parameter (its last part exists and is not
    [Pa]). *)
Theorem parameter_kind_consistency (b : str) :
  is_parameter (b ++ lit "Pa") = Ok true
  /\ kind (b ++ lit "Pa") = index (parts b) (-1)
  /\ (is_parameter b = Ok false ->
      kind (b ++ lit "Pa") = kind b /\ exists k, kind b = Ok k).
Proof.
  split; [apply is_parameter_app_Pa|]. split; [apply kind_app_Pa|].
  intros Hb. rewrite kind_app_Pa. unfold kind. rewrite Hb. simpl.
  split; [done|]. unfold is_parameter in Hb.
  destruct (index (parts b) (-1)) as [k|e]; [by exists k | done].
Qed.

Lemma parameter_kind_consistency_witness :
  is_parameter (lit "Gen1P") = Ok false
  /\ kind (lit "Gen1PPa") = kind (lit "Gen1P")
  /\ kind (lit "Gen1P") = Ok (lit "P").
Proof.
  assert (H : is_parameter (lit "Gen1P") = Ok false) by reflexivity.
  destruct (parameter_kind_consistency (lit "Gen1P")) as (_ & _ & Hk).
  destruct (Hk H) as [Heq _].
  split; [exact H|]. split; [exact Heq | reflexivity].
Defined.

(** C6, as the specification words it, fails for a base name that is
    itself a parameter: the kind of [XPaPa] is [Pa], that of [XPa] is [X]. *)
Lemma parameter_kind_law_fails : ~ parameter_kind_law (lit "XPa").
Proof. intros [_ H]. vm_compute in H. discriminate H. Qed.

(** ** Integers and their decimal text *)

Lemma digit_val_char d :
  (0 <= d < 10)%Z ->
  Char.isdigit (digit_char d) = true /\ digit_val (digit_char d) = d.
Proof.
  intros H.
  assert (Hd : d ∈ [0; 1; 2; 3; 4; 5; 6; 7; 8; 9]%Z).
  { rewrite !elem_of_cons. lia. }
  rewrite !elem_of_cons in Hd.
  destruct Hd as [->|[->|[->|[->|[->|[->|[->|[->|[->|[->|Hd]]]]]]]]]];
    [done..|by apply elem_of_nil in Hd].
Qed.

Lemma int_digits_digit a b c r :
  Char.isdigit c = true ->
  int_digits a b (c :: r) = int_digits (10 * a + digit_val c) true r.
Proof. intros H. cbn [int_digits]. by rewrite H. Qed.

(** Reading back the digits that [str] writes. *)
Lemma int_digits_str_digits fuel n acc b :
  (0 <= n < Z.of_nat fuel)%Z ->
  int_digits 0 b (str_digits fuel n acc) = int_digits n true acc.
Proof.
  revert n acc b. induction fuel as [|f IH]; intros n acc b Hn; [lia|].
  cbn [str_digits].
  destruct (digit_val_char (n mod 10)) as [Hd Hv].
  { apply Z.mod_pos_bound. lia. }
  destruct (n <? 10)%Z eqn:E.
  - apply Z.ltb_lt in E. rewrite (int_digits_digit _ _ _ _ Hd), Hv.
    rewrite Z.mod_small by lia. done.
  - apply Z.ltb_ge in E.
    rewrite IH by (split; [apply Z.div_pos; lia | apply Z.div_lt_upper_bound; lia]).
    rewrite (int_digits_digit _ _ _ _ Hd), Hv.
    f_equal. pose proof (Z.div_mod n 10). lia.
Qed.

Lemma str_digits_all_digits fuel n acc :
  (0 <= n)%Z -> forallb Char.isdigit acc = true ->
  forallb Char.isdigit (str_digits fuel n acc) = true.
Proof.
  revert n acc. induction fuel as [|f IH]; intros n acc Hn Hacc; [done|].
  assert (Hd : Char.isdigit (digit_char (n mod 10)) = true).
  { apply digit_val_char, Z.mod_pos_bound. lia. }
  cbn [str_digits]. destruct (n <? 10)%Z.
  - cbn [forallb]. by rewrite Hd.
  - apply IH; [apply Z.div_pos; lia|]. cbn [forallb]. by rewrite Hd.
Qed.

Lemma str_digits_grows fuel n acc :
  length acc <= length (str_digits fuel n acc).
Proof.
  revert n acc. induction fuel as [|f IH]; intros n acc; cbn [str_digits]; [lia|].
  destruct (n <? 10)%Z; [cbn [length]; lia|].
  etransitivity; [|apply IH]. cbn [length]. lia.
Qed.

Lemma py_str_digits n :
  (0 <= n)%Z -> py_str n ≠ [] /\ forallb Char.isdigit (py_str n) = true.
Proof.
  intros Hn. unfold py_str.
  replace (n <? 0)%Z with false by (symmetry; apply Z.ltb_ge; lia).
  split; [|by apply str_digits_all_digits].
  cbn [str_digits]. destruct (n <? 10)%Z; [done|].
  intros H. pose proof (str_digits_grows (Z.to_nat n) (n / 10)
                          [digit_char (n mod 10)]) as Hlen.
  rewrite H in Hlen. cbn [length] in Hlen. lia.
Qed.

Lemma digit_not_space c : Char.isdigit c = true -> Char.isspace c = false.
Proof.
  unfold Char.isdigit, Char.is_09, Char.isspace, Char.between.
  rewrite andb_true_iff, orb_false_iff, !andb_false_iff, !Nat.leb_le, !Nat.leb_gt.
  lia.
Qed.

Lemma lstrip_digits s : forallb Char.isdigit s = true -> lstrip s = s.
Proof.
  destruct s as [|c r]; [done|]. simpl. rewrite andb_true_iff. intros [Hc _].
  unfold lstrip. simpl. by rewrite (digit_not_space _ Hc).
Qed.

Lemma forallb_rev {A} (p : A -> bool) l :
  forallb p l = true -> forallb p (rev l) = true.
Proof.
  rewrite !forallb_forall. intros H x Hx. apply H. by apply in_rev.
Qed.

Lemma strip_digits s : forallb Char.isdigit s = true -> strip s = s.
Proof.
  intros H. unfold strip, rstrip. rewrite (lstrip_digits _ H).
  rewrite lstrip_digits by by apply forallb_rev.
  apply rev_involutive.
Qed.

Lemma span_stops p s : stops p s -> span p s = ([], s).
Proof. destruct s as [|c r]; [done|]. simpl. by intros ->. Qed.

(** [int] skips nothing of a text that neither starts nor ends with the
    whitespace it knows. *)
Lemma int_strip_bounded s :
  stops int_space s -> stops int_space (rev s) -> int_strip s = s.
Proof.
  intros H1 H2. unfold int_strip.
  rewrite (span_stops _ _ H1). cbn [snd]. rewrite (span_stops _ _ H2).
  apply rev_involutive.
Qed.

Lemma digit_not_int_space c : Char.isdigit c = true -> int_space c = false.
Proof.
  intros H. unfold int_space. rewrite orb_false_iff. split.
  - revert H. unfold Char.isdigit, Char.is_09, Char.between.
    rewrite andb_true_iff, andb_false_iff, !Nat.leb_le, !Nat.leb_gt. lia.
  - apply bool_decide_eq_false_2. intros ->. discriminate H.
Qed.

Lemma digits_stops s : forallb Char.isdigit s = true -> stops int_space s.
Proof.
  destruct s as [|c r]; [done|]. simpl. intros [Hc _]%andb_true_iff.
  by apply digit_not_int_space.
Qed.

Lemma int_strip_digits s : forallb Char.isdigit s = true -> int_strip s = s.
Proof.
  intros H. apply int_strip_bounded; apply digits_stops; [done|].
  by apply forallb_rev.
Qed.

(** [int(str(n))] is [n]. *)
Lemma py_int_py_str n : (0 <= n)%Z -> py_int (py_str n) = Ok n.
Proof.
  intros Hn. destruct (py_str_digits n Hn) as [Hne Hall].
  unfold py_int. rewrite (int_strip_digits _ Hall).
  destruct (py_str n) as [|c r] eqn:E; [done|].
  assert (Hc : Char.isdigit c = true).
  { simpl in Hall. by apply andb_true_iff in Hall as [-> _]. }
  rewrite !bool_decide_eq_false_2 by (intros ->; discriminate Hc).
  rewrite <- E. unfold py_str.
  replace (n <? 0)%Z with false by (symmetry; apply Z.ltb_ge; lia).
  rewrite int_digits_str_digits
    by (split; [lia | rewrite Nat2Z.inj_succ, Z2Nat.id by lia; lia]).
  done.
Qed.

(** [int] does not skip the separators FS to US. *)
Example py_int_unit_separator :
  py_int ["5"%char; ascii_of_nat 31] = Raise ValueError
  /\ py_int (lit " 5" ++ [ascii_of_nat 9]) = Ok 5%Z.
Proof. split; reflexivity. Qed.

(** ** Devices and device numbers *)

Lemma digit_09az c : Char.isdigit c = true -> Char.is_09az c = true.
Proof. unfold Char.is_09az, Char.isdigit. by intros ->. Qed.

Lemma digit_not_az c : Char.isdigit c = true -> Char.is_az c = false.
Proof.
  unfold Char.isdigit, Char.is_09, Char.is_az, Char.between.
  rewrite andb_true_iff, andb_false_iff, !Nat.leb_le, !Nat.leb_gt. lia.
Qed.

Lemma az_not_digit c : Char.is_az c = true -> Char.isdigit c = false.
Proof.
  unfold Char.isdigit, Char.is_09, Char.is_az, Char.between.
  rewrite andb_true_iff, andb_false_iff, !Nat.leb_le, !Nat.leb_gt. lia.
Qed.

Lemma AZ_not_digit c : Char.is_AZ c = true -> Char.isdigit c = false.
Proof.
  unfold Char.isdigit, Char.is_09, Char.is_AZ, Char.between.
  rewrite andb_true_iff, andb_false_iff, !Nat.leb_le, !Nat.leb_gt. lia.
Qed.

Lemma forallb_digit_09az ds :
  forallb Char.isdigit ds = true -> forallb Char.is_09az ds = true.
Proof.
  rewrite !forallb_forall. intros H c Hc. apply digit_09az. by apply H.
Qed.

Lemma index_0_cons {A} (x : A) l : index (x :: l) 0 = Ok x.
Proof. done. Qed.

(** A prefix, digits and a suffix: the first match is the prefix with the
    digits. *)
Lemma match_part_device p ds sfx :
  re_prefix p = true -> ds ≠ [] -> forallb Char.isdigit ds = true ->
  re_suffix sfx = true ->
  match_part (p ++ ds ++ sfx) = Some (p ++ ds, sfx).
Proof.
  intros Hp Hne Hds Hsfx. destruct p as [|c lows]; [done|].
  simpl in Hp. apply andb_true_iff in Hp as [Hc Hlows].
  destruct ds as [|d ds']; [done|].
  pose proof Hds as Hds0. simpl in Hds0. apply andb_true_iff in Hds0 as [Hd _].
  cbn [match_part app]. rewrite Hc.
  change (lows ++ d :: ds' ++ sfx) with (lows ++ d :: (ds' ++ sfx)).
  rewrite (span_app_stop _ lows d _ (digit_not_az _ Hd)).
  rewrite (span_forall _ _ Hlows). cbn [fst snd app].
  assert (Hspan : span Char.is_09az (d :: ds' ++ sfx) = (d :: ds', sfx)).
  { change (d :: ds' ++ sfx) with ((d :: ds') ++ sfx).
    destruct sfx as [|x t].
    - rewrite app_nil_r. by apply span_forall, forallb_digit_09az.
    - simpl in Hsfx. apply andb_true_iff in Hsfx as [Hx _].
      assert (Hx' : Char.is_09az x = false).
      { apply orb_true_iff in Hx as [Hx|Hx].
        - by apply AZ_not_09az.
        - apply bool_decide_eq_true in Hx. by subst x. }
      rewrite (span_app_stop _ (d :: ds') x t Hx').
      by rewrite (span_forall _ _ (forallb_digit_09az _ Hds)). }
  by rewrite Hspan.
Qed.

Lemma device_prefix_digits p ds sfx :
  re_prefix p = true -> ds ≠ [] -> forallb Char.isdigit ds = true ->
  re_suffix sfx = true ->
  device (p ++ ds ++ sfx) = Ok (p ++ ds).
Proof.
  intros Hp Hne Hds Hsfx. unfold device.
  by rewrite (parts_match _ _ _ (match_part_device _ _ _ Hp Hne Hds Hsfx)).
Qed.

Lemma filter_all_false {A} (f : A -> bool) l :
  (forall x, In x l -> f x = false) -> List.filter f l = [].
Proof.
  induction l as [|x l IH]; intros H; [done|].
  simpl. rewrite (H x) by by left. apply IH. intros y Hy. apply H. by right.
Qed.

(** The first digit position in a text whose first digit comes after
    [pre]. *)
Lemma digit_positions_first pre d rest :
  forallb (fun c => negb (Char.isdigit c)) pre = true ->
  Char.isdigit d = true ->
  exists tl, digit_positions (pre ++ d :: rest) = length pre :: tl.
Proof.
  intros Hpre Hd. unfold digit_positions.
  rewrite length_app. cbn [length]. rewrite seq_app, List.filter_app.
  rewrite filter_all_false.
  - replace (0 + length pre) with (length pre) by lia.
    cbn [seq List.filter app]. rewrite list_lookup_middle by done. rewrite Hd.
    eauto.
  - intros i [_ Hi]%in_seq. rewrite lookup_app_l by lia.
    destruct (pre !! i) as [c|] eqn:E; [|done].
    rewrite forallb_forall in Hpre.
    apply list_elem_of_lookup_2, list_elem_of_In, Hpre in E.
    by apply negb_true_iff in E.
Qed.

Lemma digit_positions_none nd :
  forallb (fun c => negb (Char.isdigit c)) nd = true -> digit_positions nd = [].
Proof.
  intros H. unfold digit_positions. apply filter_all_false.
  intros i _. destruct (nd !! i) as [c|] eqn:E; [|done].
  rewrite forallb_forall in H.
  apply list_elem_of_lookup_2, list_elem_of_In, H in E.
  by apply negb_true_iff in E.
Qed.

Lemma re_prefix_no_digit p :
  re_prefix p = true -> forallb (fun c => negb (Char.isdigit c)) p = true.
Proof.
  destruct p as [|c r]; [done|]. simpl. rewrite !andb_true_iff.
  intros [Hc Hr]. split; [by rewrite (AZ_not_digit _ Hc)|].
  rewrite forallb_forall in Hr. apply forallb_forall. intros x Hx.
  by rewrite (az_not_digit _ (Hr x Hx)).
Qed.

Lemma device_number_digits p ds sfx :
  re_prefix p = true -> ds ≠ [] -> forallb Char.isdigit ds = true ->
  re_suffix sfx = true ->
  device_number (p ++ ds ++ sfx) = py_int ds.
Proof.
  intros Hp Hne Hds Hsfx. unfold device_number.
  rewrite (device_prefix_digits _ _ _ Hp Hne Hds Hsfx). cbn [mbind result_bind].
  destruct ds as [|d ds']; [done|].
  pose proof Hds as Hds0. simpl in Hds0. apply andb_true_iff in Hds0 as [Hd _].
  destruct (digit_positions_first p d ds' (re_prefix_no_digit _ Hp) Hd)
    as [tl ->].
  rewrite index_0_cons.
  pose proof (device_prefix_digits p (d :: ds') [] Hp Hne Hds eq_refl) as Hdev.
  rewrite app_nil_r in Hdev. rewrite Hdev. cbn [mbind result_bind].
  by rewrite drop_app_length.
Qed.

(** C5. Device-number extraction: for a prefix [[A-Z][a-z]*], a number
    [n] from 1 to 100 and a suffix [[A-Z_]*], the device number of
    [prefix + str(n) + suffix] is [n] and its device is [prefix + str(n)];
    and [device_number] fails (the [IndexError] of [digits[0]]) when the
    device has no digit. *)
Theorem device_number_extraction :
  (forall (prefix suffix : str) (n : Z),
     re_prefix prefix = true -> (1 <= n <= 100)%Z -> re_suffix suffix = true ->
     device_number (prefix ++ py_str n ++ suffix) = Ok n
     /\ device (prefix ++ py_str n ++ suffix) = Ok (prefix ++ py_str n))
  /\ (forall nm nd : str,
       device nm = Ok nd ->
       forallb (fun c => negb (Char.isdigit c)) nd = true ->
       device_number nm = Raise IndexError).
Proof.
  split.
  - intros prefix suffix n Hp Hn Hs.
    destruct (py_str_digits n) as [Hne Hds]; [lia|]. split.
    + rewrite (device_number_digits _ _ _ Hp Hne Hds Hs).
      apply py_int_py_str. lia.
    + by apply device_prefix_digits.
  - intros nm nd Hdev Hnd. unfold device_number. rewrite Hdev.
    cbn [mbind result_bind]. by rewrite (digit_positions_none _ Hnd).
Qed.

Lemma device_number_extraction_witness :
  device_number (lit "Pv" ++ py_str 11 ++ lit "U_") = Ok 11%Z
  /\ device (lit "Pv" ++ py_str 11 ++ lit "U_") = Ok (lit "Pv" ++ py_str 11)
  /\ device_number (lit "GenP") = Raise IndexError.
Proof.
  destruct device_number_extraction as [Hnum Hfail].
  destruct (Hnum (lit "Pv") (lit "U_") 11%Z eq_refl ltac:(lia) eq_refl)
    as [H1 H2].
  split; [exact H1|]. split; [exact H2|].
  exact (Hfail (lit "GenP") (lit "Gen") eq_refl eq_refl).
Defined.

(** ** Case round-trip *)

Ltac char_cases c := destruct c as [[] [] [] [] [] [] [] []].

Lemma upper_lower_AZ c : Char.is_AZ c = true -> Char.upper (Char.lower c) = c.
Proof. char_cases c; intros H; try discriminate H; reflexivity. Qed.

Lemma lower_AZ_not_underscore c :
  Char.is_AZ c = true -> Char.lower c ≠ underscore.
Proof. char_cases c; intros H; try discriminate H; by vm_compute. Qed.

Lemma lower_09az c : Char.is_09az c = true -> Char.lower c = c.
Proof.
  intros H. unfold Char.lower.
  destruct (Char.is_AZ c) eqn:E; [|done].
  apply AZ_not_09az in E. congruence.
Qed.

Lemma alnum_not_09az c :
  alnum c = true -> Char.is_09az c = false -> Char.is_AZ c = true.
Proof.
  unfold alnum, Char.is_09az.
  destruct (Char.is_AZ c), (Char.is_az c), (Char.is_09 c); simpl; congruence.
Qed.

Lemma match_part_stop s m rest :
  match_part s = Some (m, rest) ->
  match rest with [] => True | x :: _ => Char.is_09az x = false end.
Proof.
  destruct s as [|c r]; simpl; [done|].
  destruct (Char.is_AZ c); [|done].
  destruct (span Char.is_az r) as [m1 r1].
  destruct (span Char.is_09az r1) as [m2 r2] eqn:E2.
  intros [= <- <-]. exact (span_stop _ _ _ _ E2).
Qed.

(** Every part of a name made of letters and digits that starts with an
    upper-case letter (or is empty) is one match of the pattern. *)
Lemma parts_camel_shape s :
  forallb alnum s = true ->
  match s with [] => True | c :: _ => Char.is_AZ c = true end ->
  Forall part_shape (parts s).
Proof.
  remember (length s) as n eqn:Hn. revert s Hn.
  induction n as [n IH] using lt_wf_ind. intros s -> Hall Hhead.
  destruct s as [|c r]; [by constructor|].
  destruct (match_part (c :: r)) as [[m rest]|] eqn:E;
    [|by simpl in E; rewrite Hhead in E;
        destruct (span Char.is_az r) as [? r1];
        destruct (span Char.is_09az r1)].
  rewrite (parts_match _ _ _ E). constructor.
  - by eapply match_part_shape.
  - pose proof (match_part_app _ _ _ E) as Hs.
    rewrite Hs, forallb_app in Hall. apply andb_true_iff in Hall as [_ Hrest].
    eapply (IH (length rest)); [by eapply match_part_shorter | done | done |].
    pose proof (match_part_stop _ _ _ E) as Hstop.
    destruct rest as [|x t]; [done|].
    simpl in Hrest. apply andb_true_iff in Hrest as [Hx _].
    by apply alnum_not_09az.
Qed.

Lemma loop_lower_tail w r t :
  forallb Char.is_09az w = true ->
  lower_to_name_loop false r (str_lower w ++ t)
  = lower_to_name_loop false (r ++ w) t.
Proof.
  revert r. induction w as [|c w IH]; intros r Hw.
  - by rewrite app_nil_r.
  - simpl in Hw. apply andb_true_iff in Hw as [Hc Hw].
    cbn [str_lower map app lower_to_name_loop].
    rewrite (lower_09az _ Hc).
    rewrite bool_decide_eq_false_2 by by apply lower09az_not_underscore.
    fold (str_lower w). rewrite IH by done. by rewrite <- app_assoc.
Qed.

Lemma loop_lower_part p r t :
  part_shape p ->
  lower_to_name_loop true r (str_lower p ++ t)
  = lower_to_name_loop false (r ++ p) t.
Proof.
  intros (c & w & -> & Hc & Hw).
  cbn [str_lower map app lower_to_name_loop].
  rewrite bool_decide_eq_false_2 by by apply lower_AZ_not_underscore.
  rewrite (upper_lower_AZ _ Hc). fold (str_lower w).
  rewrite (loop_lower_tail _ _ _ Hw). by rewrite <- app_assoc.
Qed.

Lemma str_lower_app a b : str_lower (a ++ b) = str_lower a ++ str_lower b.
Proof. apply map_app. Qed.

Lemma lower_to_name_join ps r :
  Forall part_shape ps ->
  lower_to_name_loop true r (str_lower (join [underscore] ps))
  = r ++ concat ps.
Proof.
  intros H. revert r. induction H as [|p ps Hp Hps IH]; intros r.
  - simpl. by rewrite app_nil_r.
  - destruct ps as [|q ps].
    + cbn [join concat]. rewrite app_nil_r.
      rewrite <- (app_nil_r (str_lower p)).
      by rewrite (loop_lower_part _ _ _ Hp).
    + change (join [underscore] (p :: q :: ps))
        with (p ++ [underscore] ++ join [underscore] (q :: ps)).
      rewrite !str_lower_app, (loop_lower_part _ _ _ Hp).
      change (str_lower [underscore]) with [underscore].
      cbn [app lower_to_name_loop]. rewrite bool_decide_eq_true_2 by done.
      rewrite IH. cbn [concat]. by rewrite <- app_assoc.
Qed.

(** C7. Case round-trip: for every name [[A-Z][A-Za-z0-9]*],
    [name_to_lower] returns and [lower_to_name] maps its result back to the
    name. *)
Theorem lower_to_name_name_to_lower (nm : str) :
  re_camel nm = true ->
  exists l, name_to_lower nm = Ok l /\ lower_to_name l = nm.
Proof.
  intros H. destruct nm as [|c r]; [done|].
  simpl in H. apply andb_true_iff in H as [Hc Hr].
  assert (Hall : forallb alnum (c :: r) = true).
  { simpl. rewrite Hr. unfold alnum. by rewrite Hc. }
  eexists. split; [reflexivity|].
  unfold lower_to_name.
  rewrite (lower_to_name_join _ _ (parts_camel_shape _ Hall Hc)).
  simpl. apply concat_parts.
  intros Hin. rewrite forallb_forall in Hall.
  apply list_elem_of_In, Hall in Hin. discriminate Hin.
Qed.

Lemma lower_to_name_name_to_lower_witness :
  re_camel (lit "Wtg1InvInlet2InvTemp") = true
  /\ exists l, name_to_lower (lit "Wtg1InvInlet2InvTemp") = Ok l
             /\ lower_to_name l = lit "Wtg1InvInlet2InvTemp".
Proof.
  split; [reflexivity|].
  exact (lower_to_name_name_to_lower (lit "Wtg1InvInlet2InvTemp") eq_refl).
Defined.

(** ** Matcher *)

(** The empty pattern splits into one alternative, the empty glob, which
    matches the empty string only. *)
Lemma match_empty_pattern_iff v : match_ v [] = true <-> v = [].
Proof.
  unfold match_, fnmatchcase. simpl. rewrite orb_false_r.
  by destruct v.
Qed.

Lemma match_empty_pattern_nonempty v : v ≠ [] -> match_ v [] = false.
Proof.
  intros H. apply not_true_is_false. by rewrite match_empty_pattern_iff.
Qed.

Lemma filter_result_elem_of {A} (f : A -> result bool) l r :
  filter_result f l = Ok r ->
  forall v, v ∈ r <-> v ∈ l /\ f v = Ok true.
Proof.
  revert r. induction l as [|x l IH]; intros r H v; simpl in H.
  - injection H as <-.
    split; [intros Hin | intros [Hin _]]; by apply elem_of_nil in Hin.
  - destruct (f x) as [b|] eqn:Ex; [|done]. cbn [mbind result_bind] in H.
    destruct (filter_result f l) as [kept|] eqn:E; [|done].
    cbn [mbind result_bind] in H. injection H as <-.
    specialize (IH kept eq_refl v). rewrite elem_of_cons.
    destruct b.
    + rewrite elem_of_cons, IH. split.
      * intros [->|[Hin Hv]]; (split; [|done]); [by left | by right].
      * intros [[->|Hin] Hv]; [by left | by right].
    + rewrite IH. split.
      * intros [Hin Hv]. split; [by right | done].
      * intros [[->|Hin] Hv]; [congruence | done].
Qed.

Lemma elem_of_sorted v l : v ∈ sorted l <-> v ∈ l.
Proof. unfold sorted. by rewrite merge_sort_Permutation. Qed.

(** What [names_filter] keeps when the exclusion pattern is empty. *)
Lemma names_filter_no_excludes only device_pat onlybig v :
  v ≠ [] ->
  names_filter only [] device_pat onlybig v = Ok true
  <-> match_ v only = true
      /\ (exists d, device v = Ok d /\ match_ d device_pat = true)
      /\ (onlybig = true -> bigname v = Ok true).
Proof.
  intros Hv. unfold names_filter.
  rewrite (match_empty_pattern_nonempty _ Hv). cbn [negb].
  destruct (match_ v only); [|split; [done | by intros [? _]]].
  destruct (device v) as [d|e]; cbn [mbind result_bind];
    [|split; [done | by intros (_ & (d & ? & _) & _)]].
  destruct (match_ d device_pat) eqn:Ed.
  - destruct onlybig.
    + split; [intros H; eauto 10|]. intros (_ & _ & H). by apply H.
    + split; [intros _; split; [done|]; split; [eauto|done] | done].
  - split; [done|]. intros (_ & (d' & [= <-] & Hd) & _). congruence.
Qed.

(** C4, as amended. [match(v, "")] is true exactly for the empty [v]; so
    it is false for every non-empty [v], and in [names] an empty
    [excludes] pattern never excludes a non-empty registered name: such a
    name is listed exactly when it passes the three other criteria. *)
Theorem match_empty_pattern :
  (forall v, match_ v [] = true <-> v = [])
  /\ (forall only device_pat onlybig t r,
       names only [] device_pat onlybig t = Ok r ->
       forall v, v ≠ [] ->
         (v ∈ r <->
          v ∈ dom (named t)
          /\ match_ v only = true
          /\ (exists d, device v = Ok d /\ match_ d device_pat = true)
          /\ (onlybig = true -> bigname v = Ok true))).
Proof.
  split; [apply match_empty_pattern_iff|].
  intros only device_pat onlybig t r H v Hv. unfold names in H.
  destruct (filter_result _ _) as [kept|] eqn:E; [|done].
  cbn [mbind result_bind] in H. injection H as <-.
  rewrite elem_of_sorted, (filter_result_elem_of _ _ _ E v).
  rewrite elem_of_elements, (names_filter_no_excludes _ _ _ _ Hv). done.
Qed.

Lemma match_empty_pattern_witness :
  let t := Tables {[ lit "Gen1P" := true; lit "p_q" := true ]} ∅ ∅ ∅ ∅ ∅ in
  names (lit "*") [] (lit "*") true t = Ok [lit "Gen1P"]
  /\ lit "Gen1P" ≠ []
  /\ lit "Gen1P" ∈ dom (named t).
Proof.
  intros t.
  assert (H : names (lit "*") [] (lit "*") true t = Ok [lit "Gen1P"])
    by (vm_compute; reflexivity).
  assert (Hne : lit "Gen1P" ≠ []) by discriminate.
  destruct match_empty_pattern as [_ Hnames].
  pose proof (Hnames _ _ _ _ _ H (lit "Gen1P") Hne) as [Hin _].
  split; [exact H|]. split; [exact Hne|].
  apply Hin. apply list_elem_of_here.
Defined.

(** C4, as the specification words it, fails for the empty value: the
    empty pattern matches the empty string. *)
Lemma empty_pattern_matches_empty : ~ empty_pattern_matches_nothing [].
Proof. intros H. vm_compute in H. discriminate H. Qed.

(** The registered name [""] is excluded by the empty [excludes]. *)
Example names_excludes_empty_name :
  names (lit "*") [] (lit "*") false (Tables {[ [] := true ]} ∅ ∅ ∅ ∅ ∅)
  = Ok [].
Proof. vm_compute. reflexivity. Qed.

(** ** Grammar expansion *)

Lemma fold_union_None l : foldl union_results None l = None.
Proof. by induction l. Qed.

(** The two nested loops of [expand_rules] visit the branches in order. *)
Lemma expand_rules_unfold fuel rules s :
  expand_rules (S fuel) rules s
  = if finished s then Some {[ s ]}
    else foldl union_results (Some ∅)
           (map (expand_rules fuel rules) (branches rules s)).
Proof.
  cbn [expand_rules]. destruct (finished s); [done|].
  unfold branches. generalize (Some (∅ : gset str)) as acc.
  induction (map_to_list rules) as [|[lhs rhs] l IH]; intros acc; [done|].
  cbn [foldl mbind list_bind]. rewrite IH, map_app, foldl_app. f_equal.
  clear IH. revert acc.
  induction (split bar rhs) as [|c cs IH]; intros acc; [done|].
  cbn [foldl mbind list_bind]. rewrite IH, map_app, foldl_app. f_equal.
  destruct (bool_decide (replace1 lhs c s ≠ s)); [done|].
  by destruct acc.
Qed.

Lemma fold_union_Some (g : str -> option (gset str)) l a r :
  foldl union_results (Some a) (map g l) = Some r
  <-> exists rs, Forall2 (fun b rb => g b = Some rb) l rs /\ r = a ∪ ⋃ rs.
Proof.
  revert a. induction l as [|b l IH]; intros a; cbn [map foldl].
  - split.
    + intros [= <-]. exists []. split; [constructor|].
      simpl. by rewrite (right_id_L ∅ (∪)).
    + intros (rs & Hrs & ->). apply Forall2_nil_inv_l in Hrs as ->.
      simpl. by rewrite (right_id_L ∅ (∪)).
  - destruct (g b) as [rb|] eqn:E; cbn [union_results mbind option_bind].
    + rewrite IH. split.
      * intros (rs & Hrs & ->). exists (rb :: rs). split; [by constructor|].
        simpl. by rewrite (assoc_L (∪)).
      * intros (rs & Hrs & ->).
        apply Forall2_cons_inv_l in Hrs as (rb' & rs' & Hb & Hrs & ->).
        assert (rb' = rb) as -> by congruence.
        exists rs'. split; [done|]. simpl. by rewrite (assoc_L (∪)).
    + rewrite fold_union_None. split; [done|].
      intros (rs & Hrs & _).
      apply Forall2_cons_inv_l in Hrs as (rb' & rs' & Hb & _). congruence.
Qed.

(** More depth does not change a result. *)
Lemma expand_rules_S fuel rules s r :
  expand_rules fuel rules s = Some r -> expand_rules (S fuel) rules s = Some r.
Proof.
  revert s r. induction fuel as [|f IH]; intros s r H; [done|].
  rewrite expand_rules_unfold in H. rewrite expand_rules_unfold.
  destruct (finished s); [done|].
  apply fold_union_Some in H as (rs & Hrs & ->).
  apply fold_union_Some. exists rs. split; [|done].
  eapply Forall2_impl; [exact Hrs|]. intros b rb Hb. by apply IH.
Qed.

Lemma expand_rules_le f1 f2 rules s r :
  f1 <= f2 -> expand_rules f1 rules s = Some r ->
  expand_rules f2 rules s = Some r.
Proof.
  induction 1 as [|f2 _ IH]; [done|]. intros H. by apply expand_rules_S, IH.
Qed.

Lemma returns_functional rules s r1 r2 :
  returns rules s r1 -> returns rules s r2 -> r1 = r2.
Proof.
  intros [f1 H1] [f2 H2].
  apply (expand_rules_le f1 (f1 `max` f2)) in H1; [|lia].
  apply (expand_rules_le f2 (f1 `max` f2)) in H2; [|lia].
  congruence.
Qed.

(** Results of several calls are reached at one common depth. *)
Lemma returns_common_fuel rules bs rs :
  Forall2 (returns rules) bs rs ->
  exists fuel, Forall2 (fun b rb => expand_rules fuel rules b = Some rb) bs rs.
Proof.
  induction 1 as [|b rb bs rs [f1 Hb] _ [f2 IH]].
  - exists 0. constructor.
  - exists (f1 `max` f2). constructor.
    + apply (expand_rules_le f1); [lia | done].
    + eapply Forall2_impl; [exact IH|]. intros b' rb' Hb'.
      apply (expand_rules_le f2); [lia | done].
Qed.

Lemma returns_of_finished rules s :
  finished s = true -> returns rules s {[ s ]}.
Proof. intros E. exists 1. rewrite expand_rules_unfold. by rewrite E. Qed.

(** When every branch returns, so does the call, with the union. *)
Lemma returns_of_branches rules s rs :
  finished s = false ->
  Forall2 (returns rules) (branches rules s) rs ->
  returns rules s (⋃ rs).
Proof.
  intros E Hrs. apply returns_common_fuel in Hrs as [f Hrs].
  exists (S f). rewrite expand_rules_unfold, E.
  apply fold_union_Some. exists rs. split; [done|].
  by rewrite (left_id_L ∅ (∪)).
Qed.

Lemma branches_nil rules s :
  (forall lhs rhs c,
     rules !! lhs = Some rhs -> c ∈ split bar rhs -> replace1 lhs c s = s) ->
  branches rules s = [].
Proof.
  intros H. apply elem_of_nil_inv. intros u Hu. unfold branches in Hu.
  apply list_elem_of_bind in Hu as ([lhs rhs] & Hu & Hrule).
  apply elem_of_map_to_list in Hrule.
  apply list_elem_of_bind in Hu as (c & Hu & Hc).
  rewrite (H lhs rhs c Hrule Hc) in Hu.
  rewrite bool_decide_eq_false_2 in Hu by (intros Hne; by apply Hne).
  by apply elem_of_nil in Hu.
Qed.

(** C9. Undefined nonterminal is not a crash: for an unfinished [s] that
    no alternative of any rule rewrites to a different string,
    [expand_rules] returns the empty set, at every depth of at least one
    call. *)
Theorem expand_rules_undefined (rules : gmap str str) (s : str) (fuel : nat) :
  finished s = false ->
  (forall lhs rhs c,
     rules !! lhs = Some rhs -> c ∈ split bar rhs -> replace1 lhs c s = s) ->
  expand_rules (S fuel) rules s = Some ∅.
Proof.
  intros Hs H. rewrite expand_rules_unfold, Hs. by rewrite (branches_nil _ _ H).
Qed.

Lemma expand_rules_undefined_witness :
  expand_rules 1 {[ lit "<a>" := lit "x" ]} (lit "<b>") = Some ∅.
Proof.
  apply (expand_rules_undefined {[ lit "<a>" := lit "x" ]} (lit "<b>") 0).
  - reflexivity.
  - intros lhs rhs c [<- <-]%lookup_singleton_Some Hc.
    apply list_elem_of_singleton in Hc as ->. reflexivity.
Defined.

(** The doctests of [expand_bnf]. *)
Example expand_bnf_hello :
  expand_bnf 2 (lit "<s> ::= hello" ++ [LF]) (lit "<s>") = Some [lit "hello"].
Proof. vm_compute. reflexivity. Qed.

Example expand_bnf_helloworld :
  expand_bnf 3 (lit "<s> ::= hello<world>" ++ LF :: lit "<world> ::= world")
    (lit "<s>")
  = Some [lit "helloworld"].
Proof. vm_compute. reflexivity. Qed.

Example expand_bnf_alternatives :
  expand_bnf 3 (lit "<s> ::= hello|world" ++ [LF]) (lit "<s>")
  = Some [lit "hello"; lit "world"].
Proof. vm_compute. reflexivity. Qed.

Example expand_bnf_empty :
  expand_bnf 2 (lit "<s> ::= " ++ [LF]) (lit "<s>") = Some [[]].
Proof. vm_compute. reflexivity. Qed.

(** ** Reading a grammar *)

Lemma linebreak_LF c : is_linebreak c = false -> c ≠ LF.
Proof. by intros H ->. Qed.

Lemma splitlines_loop_line cur cr l :
  forallb (fun c => negb (is_linebreak c)) l = true ->
  splitlines_loop cur cr l
  = match cur ++ l with [] => [] | _ :: _ => [cur ++ l] end.
Proof.
  revert cur cr. induction l as [|c l IH]; intros cur cr H.
  - rewrite app_nil_r. by destruct cur.
  - cbn [forallb] in H. apply andb_true_iff in H as [Hc Hl].
    apply negb_true_iff in Hc. cbn [splitlines_loop].
    rewrite (bool_decide_eq_false_2 _ (linebreak_LF _ Hc)), Hc.
    cbn [andb]. rewrite IH by done. by rewrite <- app_assoc.
Qed.

Lemma bnf_line_blank g : bnf_line g [] = g.
Proof. done. Qed.

Lemma fold_bnf_line_current g cur :
  foldl bnf_line g (match cur with [] => [] | _ :: _ => [cur] end)
  = bnf_line g cur.
Proof. by destruct cur. Qed.

(** Appending a line to a grammar text adds one iteration of the loop. *)
Lemma fold_splitlines_append g0 cur cr g1 l :
  (cr = true -> cur = []) ->
  forallb (fun c => negb (is_linebreak c)) l = true ->
  foldl bnf_line g0 (splitlines_loop cur cr (g1 ++ LF :: l))
  = bnf_line (foldl bnf_line g0 (splitlines_loop cur cr g1)) l.
Proof.
  intros Hinv Hl. revert g0 cur cr Hinv.
  induction g1 as [|c g1 IH]; intros g0 cur cr Hinv.
  - cbn [app splitlines_loop]. rewrite bool_decide_eq_true_2 by done.
    change (is_linebreak LF) with true.
    change (bool_decide (LF = CR)) with false.
    destruct cr; cbn [andb].
    + rewrite (Hinv eq_refl), (splitlines_loop_line [] false l Hl).
      cbn [app foldl]. apply fold_bnf_line_current.
    + rewrite (splitlines_loop_line [] false l Hl). cbn [app foldl].
      rewrite !fold_bnf_line_current. done.
  - cbn [app splitlines_loop].
    destruct (bool_decide (c = LF) && cr); [by apply IH|].
    destruct (is_linebreak c).
    + cbn [foldl]. by apply IH.
    + by apply IH.
Qed.

(** C3. Grammar redefinition overwrites: a definition line appended to a
    grammar text assigns its key, whatever the text before defined for
    it; and [expand_bnf] of the two-line grammar that defines [<s>] twice
    is [["world"]]. *)
Theorem bnf_redefinition_overwrites :
  (forall (g1 l k v : str),
     forallb (fun c => negb (is_linebreak c)) l = true ->
     rule_of_line l = Some (k, v) ->
     bnf_to_rules (g1 ++ LF :: l) = <[k := v]> (bnf_to_rules g1))
  /\ (forall n,
       expand_bnf (S (S n))
         (lit "<s> ::= hello" ++ LF :: lit "<s> ::= world") (lit "<s>")
       = Some [lit "world"]).
Proof.
  split.
  - intros g1 l k v Hl Hrule. unfold bnf_to_rules, splitlines.
    rewrite fold_splitlines_append by done.
    unfold bnf_line at 1. by rewrite Hrule.
  - intros n. vm_compute. reflexivity.
Qed.

Lemma bnf_redefinition_overwrites_witness :
  bnf_to_rules (lit "<s> ::= hello" ++ LF :: lit "<s> ::= world") !! lit "<s>"
  = Some (lit "world").
Proof.
  destruct bnf_redefinition_overwrites as [H _].
  rewrite (H (lit "<s> ::= hello") (lit "<s> ::= world")
             (lit "<s>") (lit "world") eq_refl eq_refl).
  apply lookup_insert_eq.
Defined.

(** ** Reading a description *)

Lemma read_row_blank g line t : read_row (g, line, t) [] = Ok (g, S line, t).
Proof. done. Qed.

Lemma read_row_five g line t c0 c1 c2 c3 c4 :
  exists acc, read_row (g, line, t) [c0; c1; c2; c3; c4] = Ok acc.
Proof.
  unfold read_row.
  change (bool_decide (length [c0; c1; c2; c3; c4] = 0)) with false.
  change (bool_decide (length [c0; c1; c2; c3; c4] = 4)) with false.
  cbv iota.
  change (bool_decide (length [c0; c1; c2; c3; c4] ≠ 5)) with false.
  cbv iota.
  destruct (bool_decide (S line = 1)); [by eexists|].
  change (index [c0; c1; c2; c3; c4] 0) with (Ok c0).
  change (index [c0; c1; c2; c3; c4] 1) with (Ok c1).
  change (index [c0; c1; c2; c3; c4] 2) with (Ok c2).
  change (index [c0; c1; c2; c3; c4] 3) with (Ok c3).
  change (index [c0; c1; c2; c3; c4] 4) with (Ok c4).
  cbn [mbind result_bind].
  destruct (description_row _ _ _ _ _ _ _) as [g' t']. by eexists.
Qed.

Lemma read_row_four g line t c0 c1 c2 c3 :
  read_row (g, line, t) [c0; c1; c2; c3]
  = read_row (g, line, t) [c0; c1; c2; c3; []].
Proof. done. Qed.

(** A row with an accepted field count is read. *)
Lemma read_row_ok acc row :
  field_count_ok row -> exists acc', read_row acc row = Ok acc'.
Proof.
  destruct acc as [[g line] t]. intros [H|[H|H]].
  - destruct row; [|done]. by eexists.
  - destruct row as [|c0 [|c1 [|c2 [|c3 [|? ?]]]]]; try done.
    rewrite read_row_four. apply read_row_five.
  - destruct row as [|c0 [|c1 [|c2 [|c3 [|c4 [|? ?]]]]]]; try done.
    apply read_row_five.
Qed.

(** Any other row ends the run with [exit(1)]. *)
Lemma read_row_bad acc row :
  ~ field_count_ok row -> read_row acc row = Raise (SystemExit 1).
Proof.
  destruct acc as [[g line] t]. unfold field_count_ok. intros H.
  unfold read_row.
  rewrite (bool_decide_eq_false_2 (length row = 0)) by tauto.
  rewrite (bool_decide_eq_false_2 (length row = 4)) by tauto.
  rewrite (bool_decide_eq_true_2 (length row ≠ 5)) by tauto. done.
Qed.

Lemma read_rows_outcome rows acc :
  match read_rows rows acc with
  | Ok _ => Forall field_count_ok rows
  | Raise e => e = SystemExit 1 /\ Exists (fun row => ~ field_count_ok row) rows
  end.
Proof.
  revert acc. induction rows as [|row rows IH]; intros acc; [by constructor|].
  cbn [read_rows]. destruct (decide (field_count_ok row)) as [Hok|Hbad].
  - destruct (read_row_ok acc row Hok) as [acc' ->]. cbn [mbind result_bind].
    specialize (IH acc'). destruct (read_rows rows acc').
    + by constructor.
    + destruct IH as [-> IH]. split; [done|]. by apply Exists_cons_tl.
  - rewrite (read_row_bad acc row Hbad). cbn [mbind result_bind].
    split; [done|]. by apply Exists_cons_hd.
Qed.

(** C8, as amended. The description reader ends the run with [exit(1)]
    exactly when some row has a field count other than 0, 4 and 5, a row
    of four fields being read as one of five with an empty last field;
    when every row has no field (a blank line, skipped), four or five, it
    returns its rules. *)
Theorem read_description_malformed (rows : list (list str)) (t : tables) :
  (read_description rows t = Raise (SystemExit 1)
   <-> Exists (fun row => ~ field_count_ok row) rows)
  /\ ((exists g t', read_description rows t = Ok (g, t'))
      <-> Forall field_count_ok rows)
  /\ (forall g line c0 c1 c2 c3,
        read_row (g, line, t) [c0; c1; c2; c3]
        = read_row (g, line, t) [c0; c1; c2; c3; []]).
Proof.
  pose proof (read_rows_outcome rows (∅, 0, t)) as H.
  unfold read_description.
  destruct (read_rows rows (∅, 0, t)) as [[[g line] t']|e];
    cbn [mbind result_bind].
  - split; [|split].
    + split; [done|]. intros Hex. apply Exists_exists in Hex as (row & Hin & Hbad).
      rewrite Forall_forall in H. destruct Hbad. by apply H.
    + split; [done|]. intros _. by exists g, t'.
    + done.
  - destruct H as [-> Hex]. split; [|split].
    + done.
    + split; [by intros (g & t' & ?)|]. intros Hall.
      apply Exists_exists in Hex as (row & Hin & Hbad).
      rewrite Forall_forall in Hall. destruct Hbad. by apply Hall.
    + done.
Qed.

(** C8, as the specification words it, fails for a row with no field:
    its field count is neither 4 nor 5 and the reader skips it. *)
Lemma malformed_row_law_fails : ~ malformed_row_law [[]] clear_names.
Proof.
  intros H. unfold malformed_row_law in H.
  assert (Hex : Exists (fun row : list str => length row ≠ 4 /\ length row ≠ 5)
                  [[]]).
  { apply Exists_cons_hd. simpl. lia. }
  specialize (H Hex). vm_compute in H. discriminate H.
Qed.

(** ** Registration *)

(** C10. Name validation is vacuous: [valid_name] is true of every
    string, so [name] never raises and registers any string, also one
    outside the name alphabet. *)
Theorem valid_name_vacuous :
  (forall nm, valid_name nm = true)
  /\ (forall nm un sh lo t,
        exists t', name nm un sh lo t = Ok t'
                   /\ named t' !! nm = Some true
                   /\ unitd t' !! nm = Some un
                   /\ shortd t' !! nm = Some sh
                   /\ longd t' !! nm = Some lo)
  /\ (exists nm un sh lo t',
        re_name nm = false /\ name nm un sh lo clear_names = Ok t'
        /\ nm ∈ dom (named t')).
Proof.
  split; [done|]. split.
  - intros nm un sh lo t. eexists. split; [reflexivity|].
    cbn [named unitd shortd longd]. by rewrite !lookup_insert_eq.
  - exists (lit "a-b c!"), [], [], []. eexists.
    split; [reflexivity|]. split; [reflexivity|].
    cbn [named]. apply elem_of_dom. rewrite lookup_insert_eq. by eexists.
Qed.

(** * Further properties *)

(** ** The parts of a name *)

Lemma split_pieces_no_sep sep s p : p ∈ split sep s -> sep ∉ p.
Proof.
  revert p. induction s as [|c r IH]; intros p; cbn [split].
  - intros ->%list_elem_of_singleton. apply not_elem_of_nil.
  - destruct (decide (c = sep)) as [->|Hc].
    + intros [->|Hp]%elem_of_cons; [apply not_elem_of_nil | by apply IH].
    + destruct (split sep r) as [|h t] eqn:E; [by apply split_not_nil in E|].
      intros [->|Hp]%elem_of_cons.
      * intros [Heq|Hin]%elem_of_cons; [done|].
        revert Hin. apply IH. by left.
      * apply IH. by right.
Qed.

Lemma tokens_pieces t p : p ∈ tokens t -> p ≠ [] /\ underscore ∉ p.
Proof.
  unfold tokens. intros [Hne Hin]%list_elem_of_filter. split; [done|].
  by eapply split_pieces_no_sep.
Qed.

(** X1. No part is empty and no part contains an underscore. *)
Theorem parts_pieces (nm p : str) :
  p ∈ parts nm -> p ≠ [] /\ underscore ∉ p.
Proof. rewrite parts_tokens. apply tokens_pieces. Qed.

Lemma parts_pieces_witness :
  lit "U12" ∈ parts (lit "Pv1_U12")
  /\ lit "U12" ≠ [] /\ underscore ∉ lit "U12".
Proof.
  assert (H : lit "U12" ∈ parts (lit "Pv1_U12"))
    by (apply (bool_decide_unpack _); vm_compute; exact I).
  split; [exact H | exact (parts_pieces _ _ H)].
Defined.

(** X2. The parts of any name, concatenated, are the name without its
    underscores. *)
Theorem concat_parts_underscores (nm : str) :
  parts_join (parts nm) = filter (fun c => c ≠ underscore) nm.
Proof.
  unfold parts_join, parts. simpl.
  by rewrite concat_filter_nonempty, concat_split, re_sub_part_chars.
Qed.

Lemma filter_nil_all_sep (sep : ascii) (s : str) :
  filter (fun c => c ≠ sep) s = [] <-> Forall (fun c => c = sep) s.
Proof.
  induction s as [|c r IH].
  - split; [by constructor | done].
  - destruct (decide (c = sep)) as [->|Hc].
    + rewrite filter_cons_False by (intros H; by apply H).
      rewrite IH, Forall_cons. tauto.
    + rewrite filter_cons_True by done. split; [done|].
      intros [? _]%Forall_cons. done.
Qed.

Lemma concat_nil_nonempty (l : list str) :
  Forall (fun p => p ≠ []) l -> concat l = [] -> l = [].
Proof.
  destruct 1 as [|p l Hp _]; [done|]. simpl.
  intros [? _]%app_eq_nil. done.
Qed.

(** A name has no part exactly when it is made of underscores only. *)
Lemma parts_nil_iff nm : parts nm = [] <-> Forall (fun c => c = underscore) nm.
Proof.
  rewrite <- filter_nil_all_sep.
  assert (H : concat (parts nm) = filter (fun c => c ≠ underscore) nm)
    by (unfold parts; simpl;
        by rewrite concat_filter_nonempty, concat_split, re_sub_part_chars).
  rewrite <- H. split; [by intros ->|].
  apply concat_nil_nonempty, Forall_forall. intros p Hp.
  rewrite parts_tokens in Hp. by apply tokens_pieces in Hp as [? _].
Qed.

Lemma span_app_stops p s rest :
  stops p rest ->
  span p (s ++ rest) = ((span p s).1, (span p s).2 ++ rest).
Proof.
  destruct rest as [|x t]; intros H.
  - rewrite !app_nil_r. by destruct (span p s).
  - by apply span_app_stop.
Qed.

Lemma stops_09az_az rest : stops Char.is_09az rest -> stops Char.is_az rest.
Proof.
  destruct rest as [|x t]; [done|]. simpl. intros H.
  destruct (Char.is_az x) eqn:E; [|done]. apply az_09az in E. congruence.
Qed.

(** A match followed by a text that a match cannot run into is found
    whole. *)
Lemma match_part_shape_app p rest :
  part_shape p -> stops Char.is_09az rest ->
  match_part (p ++ rest) = Some (p, rest).
Proof.
  intros (c & w & -> & Hc & Hw) Hrest. cbn [app match_part]. rewrite Hc.
  rewrite (span_app_stops _ w rest (stops_09az_az _ Hrest)).
  destruct (span Char.is_az w) as [m1 w2] eqn:E. cbn [fst snd].
  pose proof (span_app _ _ _ _ E) as ->.
  rewrite forallb_app in Hw. apply andb_true_iff in Hw as [_ Hw2].
  rewrite (span_app_stops _ w2 rest Hrest), (span_forall _ _ Hw2).
  done.
Qed.

Lemma parts_nil : parts [] = [].
Proof. done. Qed.

Lemma parts_of_match p : part_shape p -> parts p = [p].
Proof.
  intros Hp. pose proof (match_part_shape_app p [] Hp I) as H.
  rewrite app_nil_r in H. by rewrite (parts_match _ _ _ H), parts_nil.
Qed.

Lemma plain_not_AZ c : plain c = true -> Char.is_AZ c = false.
Proof. unfold plain. intros [H _]%andb_true_iff. by apply negb_true_iff. Qed.

Lemma plain_not_underscore c : plain c = true -> c ≠ underscore.
Proof.
  unfold plain. intros [_ H]%andb_true_iff.
  by apply negb_true_iff, bool_decide_eq_false in H.
Qed.

Lemma re_sub_plain p : forallb plain p = true -> re_sub p = p.
Proof.
  induction p as [|c p IH]; [done|]. cbn [forallb].
  intros [Hc Hp]%andb_true_iff.
  by rewrite (re_sub_copy _ _ (plain_not_AZ _ Hc)), IH.
Qed.

Lemma plain_no_underscore p : forallb plain p = true -> underscore ∉ p.
Proof.
  rewrite forallb_forall. intros H Hin.
  apply list_elem_of_In, H in Hin. discriminate Hin.
Qed.

Lemma parts_of_plain_run p : plain_run p -> parts p = [p].
Proof.
  intros [Hne Hp]. rewrite parts_tokens, (re_sub_plain _ Hp).
  apply tokens_word; [done | by apply plain_no_underscore].
Qed.

(** The text before the first underscore of the substituted name has no
    upper-case letter: a match always opens with an underscore. *)
Lemma re_sub_head_segment s h tl :
  split underscore (re_sub s) = h :: tl ->
  forallb (fun c => negb (Char.is_AZ c)) h = true.
Proof.
  remember (length s) as n eqn:Hn. revert s h tl Hn.
  induction n as [n IH] using lt_wf_ind. intros s h tl -> H.
  destruct (match_part s) as [[m rest]|] eqn:E.
  - rewrite (re_sub_match _ _ _ E) in H. cbn [split] in H.
    rewrite decide_True in H by done. by injection H as <- _.
  - destruct s as [|c r]; [by injection H as <- _|].
    assert (Hc : Char.is_AZ c = false).
    { simpl in E. destruct (Char.is_AZ c); [|done].
      destruct (span Char.is_az r) as [m1 r1].
      by destruct (span Char.is_09az r1). }
    rewrite (re_sub_copy _ _ Hc) in H. cbn [split] in H.
    destruct (decide (c = underscore)); [by injection H as <- _|].
    destruct (split underscore (re_sub r)) as [|h' tl'] eqn:E';
      [by apply split_not_nil in E'|].
    injection H as <- <-. cbn [forallb]. rewrite Hc. cbn [negb andb].
    eapply (IH (length r)); [simpl; lia | done | exact E'].
Qed.

(** Every part is one match of the pattern or a run of characters the
    pattern does not touch. *)
Lemma parts_shapes s :
  Forall (fun p => part_shape p \/ plain_run p) (parts s).
Proof.
  remember (length s) as n eqn:Hn. revert s Hn.
  induction n as [n IH] using lt_wf_ind. intros s ->.
  destruct (match_part s) as [[m rest]|] eqn:E.
  - rewrite (parts_match _ _ _ E). constructor.
    + left. by eapply match_part_shape.
    + eapply (IH (length rest)); [by eapply match_part_shorter | done].
  - destruct s as [|c r]; [by constructor|].
    assert (Hc : Char.is_AZ c = false).
    { simpl in E. destruct (Char.is_AZ c); [|done].
      destruct (span Char.is_az r) as [m1 r1].
      by destruct (span Char.is_09az r1). }
    pose proof (IH (length r) ltac:(simpl; lia) r eq_refl) as Hr.
    rewrite parts_tokens in Hr. rewrite parts_tokens, (re_sub_copy _ _ Hc).
    unfold tokens in *. cbn [split].
    destruct (decide (c = underscore)) as [->|Hne].
    + by rewrite filter_cons_False by (intros H; by apply H).
    + destruct (split underscore (re_sub r)) as [|h tl] eqn:E';
        [by apply split_not_nil in E'|].
      rewrite filter_cons_True by done. constructor.
      * right. split; [done|]. cbn [forallb]. apply andb_true_iff. split.
        { unfold plain. rewrite Hc. by rewrite bool_decide_eq_false_2. }
        pose proof (re_sub_head_segment _ _ _ E') as Hh.
        assert (Hus : underscore ∉ h).
        { apply (split_pieces_no_sep underscore (re_sub r)).
          rewrite E'. by left. }
        apply forallb_forall. intros x Hx. unfold plain.
        rewrite forallb_forall in Hh. rewrite (Hh x Hx).
        rewrite bool_decide_eq_false_2; [done|].
        intros ->. by apply Hus, list_elem_of_In.
      * destruct (decide (h = [])) as [->|Hh].
        -- by rewrite filter_cons_False in Hr by (intros H; by apply H).
        -- rewrite filter_cons_True in Hr by done.
           by apply Forall_cons in Hr as [_ Hr].
Qed.

Lemma parts_of_part nm p : p ∈ parts nm -> parts p = [p].
Proof.
  intros Hp. pose proof (parts_shapes nm) as H. rewrite Forall_forall in H.
  destruct (H p Hp); [by apply parts_of_match | by apply parts_of_plain_run].
Qed.

(** X3. Every part of a name is either one match of the pattern (an
    upper-case letter followed by lower-case letters and digits) or a
    non-empty run without upper-case letter or underscore. *)
Theorem parts_are_matches_or_runs (nm p : str) :
  p ∈ parts nm -> part_shape p \/ plain_run p.
Proof.
  intros Hp. pose proof (parts_shapes nm) as H. rewrite Forall_forall in H.
  by apply H.
Qed.

Lemma parts_are_matches_or_runs_witness :
  part_shape (lit "Gen1") \/ plain_run (lit "Gen1").
Proof.
  apply (parts_are_matches_or_runs (lit "Gen1P") (lit "Gen1")).
  apply (bool_decide_unpack _). vm_compute. exact I.
Defined.

(** X4. Parts are atomic: decomposing a part of a name gives that part
    alone. *)
Theorem parts_idempotent (nm p : str) : p ∈ parts nm -> parts p = [p].
Proof. apply parts_of_part. Qed.

Lemma parts_idempotent_witness : parts (lit "U1n") = [lit "U1n"].
Proof.
  apply (parts_idempotent (lit "Gen1U1n") (lit "U1n")).
  apply (bool_decide_unpack _). vm_compute. exact I.
Defined.

(** ** Devices *)

Lemma index_0_nil {A} : index (@nil A) 0 = Raise IndexError.
Proof. done. Qed.

(** X5. [device] fails, with the [IndexError] of [parts(nm)[0]], exactly
    for a name made of underscores only (the empty name included);
    any other name has a device, its first part. *)
Theorem device_outcome (nm : str) :
  match device nm with
  | Ok d => ~ Forall (fun c => c = underscore) nm /\ head (parts nm) = Some d
  | Raise e => e = IndexError /\ Forall (fun c => c = underscore) nm
  end.
Proof.
  unfold device. pose proof (parts_nil_iff nm) as H.
  destruct (parts nm) as [|d l].
  - rewrite index_0_nil. split; [done | by apply H].
  - rewrite index_0_cons. split; [|done]. intros Hall. by apply H in Hall.
Qed.

(** X6. The device of a device is itself: [device(device(nm))], as
    [device_number] computes it, is [device(nm)]. *)
Theorem device_idempotent (nm d : str) : device nm = Ok d -> device d = Ok d.
Proof.
  unfold device. intros H.
  assert (Hd : d ∈ parts nm).
  { destruct (parts nm) as [|x l]; [done|].
    rewrite index_0_cons in H. injection H as ->. by left. }
  by rewrite (parts_of_part _ _ Hd).
Qed.

Lemma device_idempotent_witness :
  device (lit "Ess1DcP") = Ok (lit "Ess1") /\ device (lit "Ess1") = Ok (lit "Ess1").
Proof.
  assert (H : device (lit "Ess1DcP") = Ok (lit "Ess1")) by reflexivity.
  split; [exact H | exact (device_idempotent _ _ H)].
Defined.

(** ** Stripping *)

Lemma lstrip_spaces s : forallb Char.isspace s = true -> lstrip s = [].
Proof. intros H. unfold lstrip. by rewrite (span_forall _ _ H). Qed.

Lemma lstrip_app a b :
  forallb Char.isspace a = true -> stops Char.isspace b -> lstrip (a ++ b) = b.
Proof.
  intros Ha Hb. unfold lstrip.
  by rewrite (span_app_stops _ a b Hb), (span_forall _ _ Ha).
Qed.

Lemma rstrip_app b c :
  forallb Char.isspace c = true -> stops Char.isspace (rev b) ->
  rstrip (b ++ c) = b.
Proof.
  intros Hc Hb. unfold rstrip. rewrite rev_app_distr.
  rewrite lstrip_app by (by try apply forallb_rev). apply rev_involutive.
Qed.

Lemma strip_trim a b c :
  forallb Char.isspace a = true -> forallb Char.isspace c = true ->
  stops Char.isspace b -> stops Char.isspace (rev b) ->
  strip (a ++ b ++ c) = b.
Proof.
  intros Ha Hc Hb Hb'. unfold strip. destruct b as [|x b].
  - cbn [app]. rewrite lstrip_spaces by (rewrite forallb_app; by rewrite Ha, Hc).
    done.
  - rewrite lstrip_app by done. by apply rstrip_app.
Qed.

(** X7. Stripping removes surrounding whitespace and nothing else: for
    whitespace [a] and [c] and a text [b] that is empty or neither starts
    nor ends with whitespace, [strip(a + b + c)] is [b]. *)
Theorem strip_surrounding (a b c : str) :
  forallb Char.isspace a = true -> forallb Char.isspace c = true ->
  stops Char.isspace b -> stops Char.isspace (rev b) ->
  strip (a ++ b ++ c) = b.
Proof. apply strip_trim. Qed.

Lemma strip_surrounding_witness :
  strip (lit "  " ++ lit "a b" ++ lit " ") = lit "a b".
Proof.
  apply (strip_surrounding (lit "  ") (lit "a b") (lit " "));
    reflexivity.
Defined.

Lemma strip_split s :
  exists a c,
    s = a ++ strip s ++ c
    /\ forallb Char.isspace a = true /\ forallb Char.isspace c = true
    /\ stops Char.isspace (strip s) /\ stops Char.isspace (rev (strip s)).
Proof.
  unfold strip, rstrip, lstrip.
  destruct (span Char.isspace s) as [a t] eqn:E1. cbn [snd].
  destruct (span Char.isspace (rev t)) as [c' u] eqn:E2. cbn [snd].
  pose proof (span_app _ _ _ _ E1) as Hs.
  pose proof (span_app _ _ _ _ E2) as Ht.
  pose proof (span_all _ _ _ _ E1) as Ha.
  pose proof (span_all _ _ _ _ E2) as Hc.
  pose proof (span_stop _ _ _ _ E1) as Hstop1.
  pose proof (span_stop _ _ _ _ E2) as Hstop2.
  assert (Ht' : t = rev u ++ rev c').
  { rewrite <- (rev_involutive t), Ht. apply rev_app_distr. }
  exists a, (rev c'). split; [by rewrite Hs, Ht'|].
  split; [done|]. split; [by apply forallb_rev|]. split.
  - rewrite Ht' in Hstop1. by destruct (rev u).
  - by rewrite rev_involutive.
Qed.

(** X8. What [strip] returns neither starts nor ends with whitespace, the
    text is that result between two runs of whitespace, and stripping
    again changes nothing. *)
Theorem strip_result (s : str) :
  (exists a c,
     s = a ++ strip s ++ c
     /\ forallb Char.isspace a = true /\ forallb Char.isspace c = true)
  /\ stops Char.isspace (strip s) /\ stops Char.isspace (rev (strip s))
  /\ strip (strip s) = strip s.
Proof.
  destruct (strip_split s) as (a & c & Hs & Ha & Hc & H1 & H2).
  split; [by exists a, c|]. split; [done|]. split; [done|].
  pose proof (strip_trim [] (strip s) [] eq_refl eq_refl H1 H2) as H.
  by rewrite app_nil_r in H.
Qed.

(** ** Device numbers that do not parse *)

Lemma int_digits_stuck ds c r a b :
  forallb Char.isdigit ds = true ->
  Char.isdigit c = false -> c ≠ underscore ->
  int_digits a b (ds ++ c :: r) = None.
Proof.
  intros Hds Hc Hus. revert a b. induction ds as [|d ds IH]; intros a b.
  - cbn [app int_digits]. rewrite Hc. by rewrite bool_decide_eq_false_2.
  - cbn [forallb] in Hds. apply andb_true_iff in Hds as [Hd Hds].
    cbn [app]. rewrite (int_digits_digit _ _ _ _ Hd). by apply IH.
Qed.

Lemma az_not_space c : Char.is_az c = true -> Char.isspace c = false.
Proof.
  unfold Char.is_az, Char.isspace, Char.between.
  rewrite andb_true_iff, orb_false_iff, !andb_false_iff, !Nat.leb_le, !Nat.leb_gt.
  lia.
Qed.

Lemma az_not_int_space c : Char.is_az c = true -> int_space c = false.
Proof.
  intros H. unfold int_space. rewrite orb_false_iff. split.
  - revert H. unfold Char.is_az, Char.between.
    rewrite andb_true_iff, andb_false_iff, !Nat.leb_le, !Nat.leb_gt. lia.
  - apply bool_decide_eq_false_2. intros ->. discriminate H.
Qed.

Lemma az_not_underscore c : Char.is_az c = true -> c ≠ underscore.
Proof. intros H ->. discriminate H. Qed.

Lemma forallb_last {A} (p : A -> bool) l x :
  forallb p (l ++ [x]) = true -> p x = true.
Proof. rewrite forallb_app. simpl. intros [_ H]%andb_true_iff. by destruct (p x). Qed.

(** [int] of digits followed by lower-case letters. *)
Lemma py_int_digits_letters ds low :
  ds ≠ [] -> forallb Char.isdigit ds = true ->
  low ≠ [] -> forallb Char.is_az low = true ->
  py_int (ds ++ low) = Raise ValueError.
Proof.
  intros Hne Hds Hlow Haz. unfold py_int.
  destruct ds as [|d ds]; [done|].
  pose proof Hds as Hds0. cbn [forallb] in Hds0.
  apply andb_true_iff in Hds0 as [Hd _].
  assert (Hstrip : int_strip ((d :: ds) ++ low) = (d :: ds) ++ low).
  { apply int_strip_bounded.
    - simpl. by apply digit_not_int_space.
    - rewrite rev_app_distr.
      destruct low as [|x low] using rev_ind; [done|].
      rewrite rev_app_distr. simpl. apply az_not_int_space.
      by apply forallb_last in Haz. }
  rewrite Hstrip. cbn [app].
  rewrite !bool_decide_eq_false_2 by (intros ->; discriminate Hd).
  destruct low as [|x low]; [done|].
  cbn [forallb] in Haz. apply andb_true_iff in Haz as [Hx _].
  change (d :: ds ++ x :: low) with ((d :: ds) ++ x :: low).
  by rewrite (int_digits_stuck _ _ _ _ _ Hds (az_not_digit _ Hx)
                (az_not_underscore _ Hx)).
Qed.

Lemma re_suffix_stops sfx : re_suffix sfx = true -> stops Char.is_09az sfx.
Proof.
  destruct sfx as [|x t]; [done|]. simpl.
  intros [Hx _]%andb_true_iff. apply orb_true_iff in Hx as [Hx|Hx].
  - by apply AZ_not_09az.
  - apply bool_decide_eq_true in Hx. by subst x.
Qed.

(** X9. A device whose digits are followed by lower-case letters has no
    device number: for a prefix [[A-Z][a-z]*], digits, lower-case letters
    and a suffix [[A-Z_]*], [device_number] fails with the [ValueError]
    of [int]. *)
Theorem device_number_letters_after_digits (p ds low sfx : str) :
  re_prefix p = true ->
  ds ≠ [] -> forallb Char.isdigit ds = true ->
  low ≠ [] -> forallb Char.is_az low = true ->
  re_suffix sfx = true ->
  device_number (p ++ ds ++ low ++ sfx) = Raise ValueError.
Proof.
  intros Hp Hne Hds Hlow Haz Hsfx.
  assert (Hshape : part_shape (p ++ ds ++ low)).
  { destruct p as [|c lows]; [done|]. simpl in Hp.
    apply andb_true_iff in Hp as [Hc Hlows].
    exists c, (lows ++ ds ++ low). split; [done|]. split; [done|].
    rewrite !forallb_app, (forallb_az_09az _ Hlows),
      (forallb_digit_09az _ Hds), (forallb_az_09az _ Haz). done. }
  assert (Hdev : forall rest, stops Char.is_09az rest ->
            device ((p ++ ds ++ low) ++ rest) = Ok (p ++ ds ++ low)).
  { intros rest Hrest. unfold device.
    by rewrite (parts_match _ _ _ (match_part_shape_app _ _ Hshape Hrest)). }
  unfold device_number.
  replace (p ++ ds ++ low ++ sfx) with ((p ++ ds ++ low) ++ sfx)
    by (by rewrite <- !app_assoc).
  rewrite (Hdev sfx (re_suffix_stops _ Hsfx)). cbn [mbind result_bind].
  destruct ds as [|d ds']; [done|].
  pose proof Hds as Hds0. cbn [forallb] in Hds0.
  apply andb_true_iff in Hds0 as [Hd _].
  change (p ++ (d :: ds') ++ low) with (p ++ d :: (ds' ++ low)).
  destruct (digit_positions_first p d (ds' ++ low)
              (re_prefix_no_digit _ Hp) Hd) as [tl ->].
  rewrite index_0_cons. cbn [mbind result_bind].
  pose proof (Hdev [] I) as Hdev0. rewrite app_nil_r in Hdev0.
  change (p ++ d :: (ds' ++ low)) with (p ++ (d :: ds') ++ low).
  rewrite Hdev0. cbn [mbind result_bind].
  rewrite drop_app_length. by apply py_int_digits_letters.
Qed.

Lemma device_number_letters_after_digits_witness :
  device_number (lit "U" ++ lit "1" ++ lit "n" ++ lit "P") = Raise ValueError.
Proof.
  apply (device_number_letters_after_digits
           (lit "U") (lit "1") (lit "n") (lit "P"));
    solve [reflexivity | discriminate].
Defined.

(** ** Case conversion *)

Lemma upper_not_underscore c : c ≠ underscore -> Char.upper c ≠ underscore.
Proof.
  intros Hc. unfold Char.upper. destruct (Char.is_az c) eqn:E; [|done].
  revert E. char_cases c; intros E; try discriminate E; by vm_compute.
Qed.

Lemma lower_to_name_loop_no_underscore u r nm :
  underscore ∉ r -> underscore ∉ lower_to_name_loop u r nm.
Proof.
  revert u r. induction nm as [|c nm IH]; intros u r Hr; [done|].
  cbn [lower_to_name_loop]. destruct (bool_decide (c = underscore)) eqn:E.
  - by apply IH.
  - apply bool_decide_eq_false in E. apply IH.
    rewrite elem_of_app, list_elem_of_singleton. intros [?|Heq]; [done|].
    destruct u; [by apply (upper_not_underscore c) | done].
Qed.

(** X10. [lower_to_name] drops every underscore: its result has none. *)
Theorem lower_to_name_no_underscore (nm : str) :
  underscore ∉ lower_to_name nm.
Proof. apply lower_to_name_loop_no_underscore, not_elem_of_nil. Qed.

Lemma lower_upper_az c : Char.is_az c = true -> Char.lower (Char.upper c) = c.
Proof. char_cases c; intros H; try discriminate H; reflexivity. Qed.

Lemma upper_az_AZ c : Char.is_az c = true -> Char.is_AZ (Char.upper c) = true.
Proof. char_cases c; intros H; try discriminate H; reflexivity. Qed.

Lemma str_lower_09az w : forallb Char.is_09az w = true -> str_lower w = w.
Proof.
  induction w as [|c w IH]; [done|]. cbn [forallb str_lower map].
  intros [Hc Hw]%andb_true_iff. fold (str_lower w).
  by rewrite (lower_09az _ Hc), IH.
Qed.

Lemma capitalize_shape seg :
  lower_segment seg = true -> part_shape (capitalize seg).
Proof.
  destruct seg as [|c w]; [done|]. simpl. intros [Hc Hw]%andb_true_iff.
  exists (Char.upper c), w. split; [done|]. split; [by apply upper_az_AZ | done].
Qed.

Lemma str_lower_capitalize seg :
  lower_segment seg = true -> str_lower (capitalize seg) = seg.
Proof.
  destruct seg as [|c w]; [done|]. simpl. intros [Hc Hw]%andb_true_iff.
  fold (str_lower w). by rewrite (lower_upper_az _ Hc), (str_lower_09az _ Hw).
Qed.

Lemma str_lower_join ps :
  str_lower (join [underscore] ps) = join [underscore] (map str_lower ps).
Proof.
  induction ps as [|p ps IH]; [done|]. destruct ps as [|q ps]; [done|].
  change (join [underscore] (p :: q :: ps))
    with (p ++ [underscore] ++ join [underscore] (q :: ps)).
  rewrite !str_lower_app, IH. done.
Qed.

Lemma map_lower_capitalize segs :
  Forall (fun seg => lower_segment seg = true) segs ->
  map str_lower (map capitalize segs) = segs.
Proof.
  induction 1 as [|seg segs Hseg _ IH]; [done|].
  cbn [map]. by rewrite (str_lower_capitalize _ Hseg), IH.
Qed.

Lemma part_shape_head_stops ps :
  Forall part_shape ps -> stops Char.is_09az (concat ps).
Proof.
  destruct 1 as [|p ps (c & w & -> & Hc & _) _]; [done|].
  simpl. by apply AZ_not_09az.
Qed.

(** The parts of matches written one after the other are these matches. *)
Lemma parts_concat_shapes ps : Forall part_shape ps -> parts (concat ps) = ps.
Proof.
  induction 1 as [|p ps Hp Hps IH]; [done|]. cbn [concat].
  rewrite (parts_match _ _ _
             (match_part_shape_app _ _ Hp (part_shape_head_stops _ Hps))).
  by rewrite IH.
Qed.

(** X11. The round trip from the lower-case spelling: for segments
    [[a-z][a-z0-9]*] joined by single underscores,
    [name_to_lower(lower_to_name(nm))] is [nm]. *)
Theorem name_to_lower_lower_to_name (segs : list str) :
  Forall (fun seg => lower_segment seg = true) segs ->
  name_to_lower (lower_to_name (join [underscore] segs))
  = Ok (join [underscore] segs).
Proof.
  intros H.
  assert (Hshapes : Forall part_shape (map capitalize segs)).
  { apply Forall_map. eapply Forall_impl; [exact H|].
    intros seg. apply capitalize_shape. }
  assert (Hup : lower_to_name (join [underscore] segs)
                = concat (map capitalize segs)).
  { rewrite <- (map_lower_capitalize _ H) at 1. rewrite <- str_lower_join.
    unfold lower_to_name. by rewrite (lower_to_name_join _ _ Hshapes). }
  rewrite Hup. unfold name_to_lower. cbn [valid_name].
  rewrite (parts_concat_shapes _ Hshapes), str_lower_join.
  by rewrite (map_lower_capitalize _ H).
Qed.

Lemma name_to_lower_lower_to_name_witness :
  name_to_lower (lower_to_name (lit "wtg1_inv_temp")) = Ok (lit "wtg1_inv_temp").
Proof.
  apply (name_to_lower_lower_to_name [lit "wtg1"; lit "inv"; lit "temp"]).
  repeat constructor.
Defined.

(** ** Matching *)

(** X12. The alternatives of a pattern are tried one by one:
    [match(v, p + "|" + q)] is [match(v, p) or match(v, q)]. *)
Theorem match_alternatives (v p q : str) :
  match_ v (p ++ bar :: q) = match_ v p || match_ v q.
Proof. unfold match_. by rewrite split_sep_app, existsb_app. Qed.

Lemma translate_literal fuel p :
  literal_pattern p = true -> length p <= fuel ->
  translate fuel p = map GLit p.
Proof.
  revert p. induction fuel as [|f IH]; intros p Hp Hlen.
  - destruct p; [done | simpl in Hlen; lia].
  - destruct p as [|c p]; [done|]. cbn [literal_pattern forallb] in Hp.
    apply andb_true_iff in Hp as [Hc Hp]. unfold literal_char in Hc.
    apply andb_true_iff in Hc as [Hc _].
    apply andb_true_iff in Hc as [Hc H3].
    apply andb_true_iff in Hc as [H1 H2].
    apply negb_true_iff in H1, H2, H3.
    cbn [translate map]. rewrite H1, H2, H3.
    rewrite IH; [done | done | simpl in Hlen; lia].
Qed.

Lemma glob_match_literal p v :
  glob_match (map GLit p) v = bool_decide (v = p).
Proof.
  revert v. induction p as [|c p IH]; intros v.
  - by destruct v.
  - destruct v as [|x v]; [done|]. cbn [map glob_match]. rewrite IH.
    destruct (decide (x = c)) as [->|Hx].
    + rewrite bool_decide_eq_true_2 by done. cbn [andb].
      apply bool_decide_ext. split; [by intros -> | by intros [= ->]].
    + rewrite (bool_decide_eq_false_2 (x = c)) by done. cbn [andb].
      symmetry. apply bool_decide_eq_false_2. by intros [= ? _].
Qed.

Lemma literal_no_bar p : literal_pattern p = true -> bar ∉ p.
Proof.
  unfold literal_pattern. rewrite forallb_forall. intros H Hin.
  apply list_elem_of_In, H in Hin. discriminate Hin.
Qed.

(** X13. A pattern without [*], [?], [[] and [|] matches itself and
    nothing else. *)
Theorem match_literal (v p : str) :
  literal_pattern p = true -> (match_ v p = true <-> v = p).
Proof.
  intros Hp. unfold match_, fnmatchcase.
  rewrite (split_no_sep _ _ (literal_no_bar _ Hp)). cbn [existsb].
  rewrite orb_false_r, (translate_literal _ _ Hp) by done.
  rewrite glob_match_literal. apply bool_decide_eq_true.
Qed.

Lemma match_literal_witness :
  match_ (lit "Gen1P") (lit "Gen1P") = true
  /\ match_ (lit "Gen1P") (lit "Gen1Px") = false.
Proof.
  split.
  - apply (match_literal (lit "Gen1P") (lit "Gen1P") eq_refl). reflexivity.
  - apply not_true_is_false. intros H.
    apply (match_literal (lit "Gen1P") (lit "Gen1Px") eq_refl) in H.
    discriminate H.
Defined.

Lemma match_star_true v : match_ v (lit "*") = true.
Proof.
  unfold match_, fnmatchcase.
  change (split bar (lit "*")) with [lit "*"]. cbn [existsb].
  change (translate (length (lit "*")) (lit "*")) with [GStar].
  rewrite orb_false_r.
  induction v as [|c v IH]; [done|]. cbn [glob_match] in *.
  by rewrite IH, orb_true_r.
Qed.

(** X14. The pattern [*] matches every value. *)
Theorem match_star (v : str) : match_ v (lit "*") = true.
Proof. apply match_star_true. Qed.

(** ** What the expansion returns *)

Lemma elem_of_branches rules s u :
  u ∈ branches rules s
  <-> exists lhs rhs c,
        rules !! lhs = Some rhs /\ c ∈ split bar rhs
        /\ u = replace1 lhs c s /\ u ≠ s.
Proof.
  unfold branches. rewrite list_elem_of_bind. split.
  - intros ([lhs rhs] & Hu & Hrule). apply elem_of_map_to_list in Hrule.
    apply list_elem_of_bind in Hu as (c & Hu & Hc).
    destruct (decide (replace1 lhs c s ≠ s)) as [Hne|Heq].
    + rewrite bool_decide_eq_true_2 in Hu by done.
      apply list_elem_of_singleton in Hu as ->. by exists lhs, rhs, c.
    + rewrite bool_decide_eq_false_2 in Hu by done. by apply elem_of_nil in Hu.
  - intros (lhs & rhs & c & Hrule & Hc & -> & Hne).
    exists (lhs, rhs). split; [|by apply elem_of_map_to_list].
    apply list_elem_of_bind. exists c. split; [|done].
    rewrite bool_decide_eq_true_2 by done. by left.
Qed.

Lemma Forall2_elem_of_r {A B} (P : A -> B -> Prop) l k y :
  Forall2 P l k -> y ∈ k -> exists x, x ∈ l /\ P x y.
Proof.
  induction 1 as [|x y' l k Hxy _ IH]; [by intros ?%elem_of_nil|].
  intros [->|Hin]%elem_of_cons.
  - exists x. split; [by left | done].
  - destruct (IH Hin) as (x' & Hx' & HP). exists x'. split; [by right | done].
Qed.

Lemma Forall2_elem_of_l {A B} (P : A -> B -> Prop) l k x :
  Forall2 P l k -> x ∈ l -> exists y, y ∈ k /\ P x y.
Proof.
  induction 1 as [|x' y l k Hxy _ IH]; [by intros ?%elem_of_nil|].
  intros [->|Hin]%elem_of_cons.
  - exists y. split; [by left | done].
  - destruct (IH Hin) as (y' & Hy' & HP). exists y'. split; [by right | done].
Qed.

Lemma returns_finished rules s r :
  returns rules s r -> finished s = true -> r = {[ s ]}.
Proof.
  intros [[|f] H] Hs; [done|]. rewrite expand_rules_unfold, Hs in H. congruence.
Qed.

Lemma returns_branches rules s r :
  returns rules s r -> finished s = false ->
  exists rs, Forall2 (returns rules) (branches rules s) rs /\ r = ⋃ rs.
Proof.
  intros [[|f] H] Hs; [done|]. rewrite expand_rules_unfold, Hs in H.
  apply fold_union_Some in H as (rs & Hrs & ->).
  exists rs. split; [|by rewrite (left_id_L ∅ (∪))].
  eapply Forall2_impl; [exact Hrs|]. intros b rb Hb. by exists f.
Qed.

Lemma derives_result_finished rules s r : derives rules s r -> finished r = true.
Proof. by induction 1. Qed.

Lemma returns_sound rules s rset r :
  returns rules s rset -> r ∈ rset -> derives rules s r.
Proof.
  intros [f H]. revert s rset r H.
  induction f as [|f IH]; intros s rset r H Hr; [done|].
  rewrite expand_rules_unfold in H. destruct (finished s) eqn:Hs.
  - injection H as <-. apply elem_of_singleton in Hr as ->.
    by apply derives_finished.
  - apply fold_union_Some in H as (rs & Hrs & ->).
    rewrite (left_id_L ∅ (∪)) in Hr.
    apply elem_of_union_list in Hr as (rb & Hrb & Hr).
    destruct (Forall2_elem_of_r _ _ _ _ Hrs Hrb) as (u & Hu & Hret).
    apply elem_of_branches in Hu as (lhs & rhs & c & Hrule & Hc & -> & Hne).
    eapply derives_step; eauto.
Qed.

Lemma returns_complete rules s r :
  derives rules s r -> forall rset, returns rules s rset -> r ∈ rset.
Proof.
  induction 1 as [s Hs|s lhs rhs c r Hs Hrule Hc Hne _ IH]; intros rset Hret.
  - rewrite (returns_finished _ _ _ Hret Hs). by apply elem_of_singleton.
  - destruct (returns_branches _ _ _ Hret Hs) as (rs & Hrs & ->).
    assert (Hu : replace1 lhs c s ∈ branches rules s).
    { apply elem_of_branches. by exists lhs, rhs, c. }
    destruct (Forall2_elem_of_l _ _ _ _ Hrs Hu) as (rb & Hrb & Hret').
    apply elem_of_union_list. exists rb. split; [done|]. by apply IH.
Qed.

(** X15. Every string [expand_rules] returns is finished: it has no [<]
    and no [|]. *)
Theorem expand_rules_finished (rules : gmap str str) (s r : str) (rset : gset str) :
  returns rules s rset -> r ∈ rset -> finished r = true.
Proof.
  intros Hret Hr. eapply derives_result_finished. by eapply returns_sound.
Qed.

Lemma expand_rules_finished_witness :
  finished (lit "helloworld") = true.
Proof.
  apply (expand_rules_finished
           {[ lit "<s>" := lit "hello<w>"; lit "<w>" := lit "world" ]}
           (lit "<s>") (lit "helloworld") {[ lit "helloworld" ]}).
  - exists 3. vm_compute. reflexivity.
  - by apply elem_of_singleton.
Defined.

(** X16. When [expand_rules] returns, it returns exactly the finished
    strings that can be derived from [s] by replacing, step by step, the
    first occurrence of a left-hand side by one of its alternatives. *)
Theorem expand_rules_derivations (rules : gmap str str) (s r : str) (rset : gset str) :
  returns rules s rset -> (r ∈ rset <-> derives rules s r).
Proof.
  intros Hret. split.
  - by apply returns_sound.
  - intros Hd. by eapply returns_complete.
Qed.

Lemma expand_rules_derivations_witness :
  derives {[ lit "<s>" := lit "hello|world" ]} (lit "<s>") (lit "world").
Proof.
  apply (expand_rules_derivations
           {[ lit "<s>" := lit "hello|world" ]}
           (lit "<s>") (lit "world") {[ lit "hello"; lit "world" ]}).
  - exists 2. vm_compute. reflexivity.
  - apply elem_of_union. right. by apply elem_of_singleton.
Defined.

(** ** Rules that never stop expanding *)

Lemma starts_with_Some p s rest : starts_with p s = Some rest <-> s = p ++ rest.
Proof.
  revert s. induction p as [|a p IH]; intros s; cbn [starts_with app].
  - split; [by intros [= ->] | by intros ->].
  - destruct s as [|b s]; [done|].
    destruct (decide (a = b)) as [->|Hab].
    + rewrite bool_decide_eq_true_2 by done. rewrite IH.
      split; [by intros -> | by intros [= ->]].
    + rewrite bool_decide_eq_false_2 by done. split; [done|].
      by intros [= ? _].
Qed.

Lemma cut_Some old s a b : cut old s = Some (a, b) -> s = a ++ old ++ b.
Proof.
  revert a b. induction s as [|c r IH]; intros a b; cbn [cut].
  - destruct (starts_with old []) as [rest|] eqn:E; [|done].
    intros [= <- <-]. by apply starts_with_Some in E.
  - destruct (starts_with old (c :: r)) as [rest|] eqn:E.
    + intros [= <- <-]. by apply starts_with_Some in E.
    + destruct (cut old r) as [[a' b']|] eqn:E'; [|done].
      intros [= <- <-]. cbn [app]. f_equal. by apply IH.
Qed.

Lemma cut_occurs old s : occurs old s -> exists a b, cut old s = Some (a, b).
Proof.
  intros (a & b & ->). induction a as [|x a IH].
  - exists [], b. cbn [app].
    assert (H : starts_with old (old ++ b) = Some b) by by apply starts_with_Some.
    destruct (old ++ b); cbn [cut]; by rewrite H.
  - destruct IH as (a' & b' & IH). cbn [app cut].
    destruct (starts_with old (x :: a ++ old ++ b)) as [rest|]; [by eauto|].
    rewrite IH. by eauto.
Qed.

Lemma find_elem c s : c ∈ s -> find c s ≠ (-1)%Z.
Proof.
  assert (Hge : forall s, (-1 <= find c s)%Z).
  { clear s. intros s. induction s as [|x s IH]; cbn [find]; [lia|].
    destruct (bool_decide (x = c)); [lia|].
    destruct (find c s =? -1)%Z; lia. }
  induction s as [|x s IH]; [by intros ?%elem_of_nil|].
  intros Hin. cbn [find]. destruct (decide (x = c)) as [->|Hx].
  - by rewrite bool_decide_eq_true_2.
  - rewrite bool_decide_eq_false_2 by done.
    apply elem_of_cons in Hin as [->|Hin]; [done|].
    specialize (IH Hin). specialize (Hge s).
    destruct (find c s =? -1)%Z eqn:E; [apply Z.eqb_eq in E; lia | lia].
Qed.

Lemma unfinished_marker s : lt_sign ∈ s -> finished s = false.
Proof.
  intros H. unfold finished.
  rewrite (bool_decide_eq_false_2 _ (find_elem _ _ H)). done.
Qed.

(** X17. A rule that reproduces its own left-hand side never stops
    expanding: when an alternative of a rule is a longer text that
    contains the left-hand side, and the left-hand side carries a [<],
    [expand_rules] does not return on any string in which that left-hand
    side occurs, whatever the depth allowed. *)
Theorem expand_rules_diverges (rules : gmap str str) (lhs rhs c : str) :
  rules !! lhs = Some rhs -> c ∈ split bar rhs ->
  lt_sign ∈ lhs -> occurs lhs c -> c ≠ lhs ->
  forall s fuel, occurs lhs s -> expand_rules fuel rules s = None.
Proof.
  intros Hrule Hc Hlt (c1 & c2 & Hocc) Hne s fuel. revert s.
  induction fuel as [|f IH]; intros s Hs; [done|].
  rewrite expand_rules_unfold.
  assert (Hunf : finished s = false).
  { apply unfinished_marker. destruct Hs as (a & b & ->).
    rewrite !elem_of_app. tauto. }
  rewrite Hunf.
  destruct (cut_occurs _ _ Hs) as (a & b & Hcut).
  pose proof (cut_Some _ _ _ _ Hcut) as Hsab.
  assert (Hu : replace1 lhs c s = a ++ c ++ b).
  { unfold replace1. by rewrite Hcut. }
  assert (Hus : replace1 lhs c s ≠ s).
  { rewrite Hu, Hsab. intros Heq.
    apply app_inv_head, app_inv_tail in Heq. done. }
  assert (Hbr : replace1 lhs c s ∈ branches rules s).
  { apply elem_of_branches. by exists lhs, rhs, c. }
  assert (Hnone : expand_rules f rules (replace1 lhs c s) = None).
  { apply IH. rewrite Hu, Hocc. exists (a ++ c1), (c2 ++ b).
    by rewrite <- !app_assoc. }
  destruct (foldl union_results (Some ∅) _) as [r|] eqn:E; [|done].
  apply fold_union_Some in E as (rs & Hrs & _).
  destruct (Forall2_elem_of_l _ _ _ _ Hrs Hbr) as (rb & _ & Hrb).
  congruence.
Qed.

Lemma expand_rules_diverges_witness :
  expand_rules 50 {[ lit "<a>" := lit "x|<a>y" ]} (lit "<a>") = None.
Proof.
  apply (expand_rules_diverges {[ lit "<a>" := lit "x|<a>y" ]}
           (lit "<a>") (lit "x|<a>y") (lit "<a>y")).
  - reflexivity.
  - apply (bool_decide_unpack _). vm_compute. exact I.
  - apply (bool_decide_unpack _). vm_compute. exact I.
  - exists [], (lit "y"). reflexivity.
  - discriminate.
  - exists [], []. reflexivity.
Defined.

(** ** Lines a grammar ignores *)

Lemma rstrip_keeps_head c r :
  Char.isspace c = false -> exists r', rstrip (c :: r) = c :: r'.
Proof.
  intros Hc. unfold rstrip, lstrip. cbn [rev].
  rewrite (span_app_stop _ (rev r) c [] Hc). cbn [snd].
  rewrite rev_app_distr. cbn [rev app]. eauto.
Qed.

Lemma rule_of_line_comment l :
  head (lstrip l) = Some "#"%char -> rule_of_line l = None.
Proof.
  intros H. unfold rule_of_line.
  destruct (lstrip l) as [|c r]; [done|]. injection H as ->.
  destruct (rstrip_keeps_head "#"%char r eq_refl) as [r' ->].
  cbn [head]. by rewrite (bool_decide_eq_true_2 (Some "#"%char = Some "#"%char)).
Qed.

Lemma rule_of_line_blank l : lstrip l = [] -> rule_of_line l = None.
Proof. intros H. unfold rule_of_line. by rewrite H. Qed.

(** X18. A blank line, or a line whose first non-blank character is [#],
    appended to a grammar text changes nothing in the rule table. *)
Theorem bnf_comment_ignored (g1 l : str) :
  forallb (fun c => negb (is_linebreak c)) l = true ->
  lstrip l = [] \/ head (lstrip l) = Some "#"%char ->
  bnf_to_rules (g1 ++ LF :: l) = bnf_to_rules g1.
Proof.
  intros Hl Hc. unfold bnf_to_rules, splitlines.
  rewrite fold_splitlines_append by done. unfold bnf_line at 1.
  destruct Hc as [Hc|Hc];
    [by rewrite (rule_of_line_blank _ Hc) | by rewrite (rule_of_line_comment _ Hc)].
Qed.

Lemma bnf_comment_ignored_witness :
  bnf_to_rules (lit "<s> ::= a" ++ LF :: lit "  # <s> ::= b")
  = bnf_to_rules (lit "<s> ::= a").
Proof.
  apply (bnf_comment_ignored (lit "<s> ::= a") (lit "  # <s> ::= b")).
  - reflexivity.
  - right. reflexivity.
Defined.

Lemma strip_stripped s : stripped (strip s).
Proof. destruct (strip_split s) as (_ & _ & _ & _ & _ & H1 & H2). by split. Qed.

Lemma fold_bnf_line_stripped g lines :
  (forall k v, g !! k = Some v -> stripped k /\ stripped v) ->
  forall k v, foldl bnf_line g lines !! k = Some v -> stripped k /\ stripped v.
Proof.
  revert g. induction lines as [|l lines IH]; intros g Hg; [done|].
  cbn [foldl]. apply IH. intros k v. unfold bnf_line, rule_of_line.
  destruct (_ && _); [|by apply Hg].
  destruct (split_str (lit "::=") 2 _) as [|a [|b [|? ?]]]; try by apply Hg.
  intros [[<- <-]|[_ H]]%lookup_insert_Some; [|by apply Hg].
  split; apply strip_stripped.
Qed.

(** X19. Every key and every value of the table [bnf_to_rules] builds is
    stripped: neither starts nor ends with whitespace. *)
Theorem bnf_to_rules_stripped (grammar k v : str) :
  bnf_to_rules grammar !! k = Some v -> stripped k /\ stripped v.
Proof.
  unfold bnf_to_rules. apply fold_bnf_line_stripped.
  intros k' v' H. by rewrite lookup_empty in H.
Qed.

Lemma bnf_to_rules_stripped_witness :
  stripped (lit "<a>") /\ stripped (lit "b|c").
Proof.
  apply (bnf_to_rules_stripped (lit "  <a>  ::=  b|c  ") (lit "<a>") (lit "b|c")).
  vm_compute. reflexivity.
Defined.

(** ** Sorted results *)

Lemma str_leb_total a b : str_leb a b = true \/ str_leb b a = true.
Proof.
  revert b. induction a as [|x a IH]; intros b; [by left|].
  destruct b as [|y b]; [by right|]. cbn [str_leb].
  destruct (Nat.ltb_spec (Char.code x) (Char.code y)) as [Hxy|Hxy];
    [by left|].
  destruct (Nat.ltb_spec (Char.code y) (Char.code x)) as [Hyx|Hyx];
    [by right|].
  apply IH.
Qed.

Lemma str_leb_trans a b c :
  str_leb a b = true -> str_leb b c = true -> str_leb a c = true.
Proof.
  revert b c. induction a as [|x a IH]; intros b c; [done|].
  destruct b as [|y b]; [done|]. destruct c as [|z c]; [done|].
  cbn [str_leb].
  destruct (Nat.ltb_spec (Char.code x) (Char.code y)) as [Hxy|Hxy];
  destruct (Nat.ltb_spec (Char.code y) (Char.code x)) as [Hyx|Hyx];
  destruct (Nat.ltb_spec (Char.code y) (Char.code z)) as [Hyz|Hyz];
  destruct (Nat.ltb_spec (Char.code z) (Char.code y)) as [Hzy|Hzy];
  destruct (Nat.ltb_spec (Char.code x) (Char.code z)) as [Hxz|Hxz];
  destruct (Nat.ltb_spec (Char.code z) (Char.code x)) as [Hzx|Hzx];
    try done; try lia.
  apply IH.
Qed.

Lemma str_le_total : Total str_le.
Proof.
  intros a b. unfold str_le.
  destruct (str_leb_total a b) as [->| ->]; [by left | by right].
Qed.

Lemma str_le_trans : Transitive str_le.
Proof.
  intros a b c. unfold str_le. intros Hab Hbc.
  apply Is_true_true in Hab, Hbc. apply Is_true_true.
  by eapply str_leb_trans.
Qed.

Lemma sorted_spec l :
  StronglySorted str_le (sorted l) /\ sorted l ≡ₚ l.
Proof.
  pose proof str_le_total. pose proof str_le_trans.
  split; [by apply StronglySorted_merge_sort | apply merge_sort_Permutation].
Qed.

(** X20. [expand_bnf] returns the strings of the expansion in ascending
    order, each once. *)
Theorem expand_bnf_sorted (fuel : nat) (grammar start : str) (l : list str) :
  expand_bnf fuel grammar start = Some l ->
  StronglySorted str_le l /\ NoDup l
  /\ exists rset, expand_rules fuel (bnf_to_rules grammar) start = Some rset
                  /\ forall r, r ∈ l <-> r ∈ rset.
Proof.
  unfold expand_bnf.
  destruct (expand_rules fuel (bnf_to_rules grammar) start) as [rset|]; [|done].
  cbn [mbind option_bind]. intros [= <-].
  destruct (sorted_spec (elements rset)) as [Hs Hp].
  split; [done|]. split.
  - rewrite Hp. apply NoDup_elements.
  - exists rset. split; [done|]. intros r. by rewrite Hp, elem_of_elements.
Qed.

Lemma expand_bnf_sorted_witness :
  StronglySorted str_le [lit "hello"; lit "world"].
Proof.
  apply (expand_bnf_sorted 3 (lit "<s> ::= world|hello") (lit "<s>")
           [lit "hello"; lit "world"]).
  vm_compute. reflexivity.
Defined.

(** ** Listing the registered names *)

Lemma filter_result_Raise {A} (f : A -> result bool) l e :
  filter_result f l = Raise e -> exists x, x ∈ l /\ f x = Raise e.
Proof.
  induction l as [|x l IH]; [done|]. cbn [filter_result].
  destruct (f x) as [b|e'] eqn:Ex; cbn [mbind result_bind].
  - destruct (filter_result f l) as [kept|e''] eqn:E; [done|].
    cbn [mbind result_bind]. intros [= ->].
    destruct (IH eq_refl) as (y & Hy & Hfy). exists y. split; [by right | done].
  - intros [= ->]. exists x. split; [by left | done].
Qed.

Lemma filter_result_sublist {A} (f : A -> result bool) l r :
  filter_result f l = Ok r -> sublist r l.
Proof.
  revert r. induction l as [|x l IH]; intros r; cbn [filter_result].
  - by intros [= <-].
  - destruct (f x) as [b|]; [|done]. cbn [mbind result_bind].
    destruct (filter_result f l) as [kept|]; [|done].
    cbn [mbind result_bind]. intros [= <-]. specialize (IH kept eq_refl).
    destruct b; [by apply sublist_skip | by apply sublist_cons].
Qed.

Lemma bigname_Raise v e : bigname v = Raise e -> v = [].
Proof. by destruct v. Qed.

Lemma names_filter_Raise only excludes device_pat onlybig v e :
  names_filter only excludes device_pat onlybig v = Raise e ->
  e = IndexError /\ Forall (fun c => c = underscore) v.
Proof.
  unfold names_filter, device.
  destruct (match_ v only); [|done].
  destruct (negb (match_ v excludes)); [|done].
  pose proof (parts_nil_iff v) as Hnil.
  destruct (parts v) as [|d l] eqn:E.
  - rewrite index_0_nil. cbn [mbind result_bind].
    intros [= <-]. split; [done | by apply Hnil].
  - rewrite index_0_cons. cbn [mbind result_bind].
    destruct (match_ d device_pat); [|done].
    destruct onlybig; [|done].
    intros ->%bigname_Raise. done.
Qed.

(** X21. [names] returns registered names only, in ascending order, each
    once; it can fail only with [IndexError], and only when a name made
    of underscores alone (or the empty name) is registered. *)
Theorem names_outcome (only excludes device_pat : str) (onlybig : bool)
    (t : tables) :
  match names only excludes device_pat onlybig t with
  | Ok r =>
      StronglySorted str_le r /\ NoDup r
      /\ forall v, v ∈ r -> v ∈ dom (named t)
  | Raise e =>
      e = IndexError
      /\ exists v, v ∈ dom (named t) /\ Forall (fun c => c = underscore) v
  end.
Proof.
  unfold names.
  destruct (filter_result _ _) as [kept|e] eqn:E; cbn [mbind result_bind].
  - destruct (sorted_spec kept) as [Hs Hp]. split; [done|].
    pose proof (filter_result_sublist _ _ _ E) as Hsub. split.
    + rewrite Hp.
      exact (sublist_NoDup _ _ (NoDup_elements (dom (named t))) Hsub).
    + intros v. rewrite Hp. intros Hv. apply elem_of_elements.
      exact (elem_of_sublist _ _ _ Hv Hsub).
  - apply filter_result_Raise in E as (v & Hv & Hf).
    apply names_filter_Raise in Hf as [-> Hall].
    split; [done|]. exists v. split; [by apply elem_of_elements | done].
Qed.

(** ** Reading description rows *)

Lemma read_row_first row g t :
  field_count_ok row -> read_row (g, 0, t) row = Ok (g, 1, t).
Proof.
  intros [H|[H|H]].
  - by destruct row.
  - by destruct row as [|c0 [|c1 [|c2 [|c3 [|? ?]]]]].
  - by destruct row as [|c0 [|c1 [|c2 [|c3 [|c4 [|? ?]]]]]].
Qed.

(** X22. The first row is never read as data, whatever it holds: two
    inputs that differ only in their first row, each first row having no
    field, four or five, give the same result.  A blank line before the
    header therefore takes the header's place. *)
Theorem read_description_first_row (r1 r2 : list str) (rows : list (list str))
    (t : tables) :
  field_count_ok r1 -> field_count_ok r2 ->
  read_description (r1 :: rows) t = read_description (r2 :: rows) t.
Proof.
  intros H1 H2. unfold read_description. cbn [read_rows].
  by rewrite (read_row_first _ _ _ H1), (read_row_first _ _ _ H2).
Qed.

Lemma read_description_first_row_witness :
  read_description
    [[]; [lit "Name"; lit "Rule"; lit "Units"; lit "Short"; lit "Long"]]
    clear_names
  = read_description
      [[lit "a"; lit "b"; lit "c"; lit "d"];
       [lit "Name"; lit "Rule"; lit "Units"; lit "Short"; lit "Long"]]
      clear_names.
Proof.
  apply read_description_first_row.
  - left. reflexivity.
  - right. left. reflexivity.
Defined.

(** A row of five fields after the first row is a data row. *)
Lemma read_row_data g line t c0 c1 c2 c3 c4 :
  read_row (g, S line, t) [c0; c1; c2; c3; c4]
  = Ok ((description_row (strip c0) (strip c1) (strip c2) (strip c3)
           (strip c4) g t).1,
        S (S line),
        (description_row (strip c0) (strip c1) (strip c2) (strip c3)
           (strip c4) g t).2).
Proof.
  unfold read_row.
  change (bool_decide (length [c0; c1; c2; c3; c4] = 0)) with false.
  change (bool_decide (length [c0; c1; c2; c3; c4] = 4)) with false.
  cbv iota.
  change (bool_decide (length [c0; c1; c2; c3; c4] ≠ 5)) with false.
  cbv iota.
  rewrite (bool_decide_eq_false_2 (S (S line) = 1)) by lia.
  change (index [c0; c1; c2; c3; c4] 0) with (Ok c0).
  change (index [c0; c1; c2; c3; c4] 1) with (Ok c1).
  change (index [c0; c1; c2; c3; c4] 2) with (Ok c2).
  change (index [c0; c1; c2; c3; c4] 3) with (Ok c3).
  change (index [c0; c1; c2; c3; c4] 4) with (Ok c4).
  cbn [mbind result_bind].
  by destruct (description_row _ _ _ _ _ g t).
Qed.

Lemma set_nonempty_dom (k v : str) (m : gmap str str) :
  dom m ⊆ dom (set_nonempty k v m).
Proof.
  unfold set_nonempty. destruct (bool_decide (v ≠ [])); [|done].
  rewrite dom_insert_L. set_solver.
Qed.

Lemma keys_marked_insert (k v : str) (g : gmap str str) :
  lt_sign ∈ k -> keys_marked g -> keys_marked (<[k := v]> g).
Proof.
  intros Hk Hg k' v' [[<- _]|[_ H]]%lookup_insert_Some; [done | by eapply Hg].
Qed.

Lemma description_row_keeps nm rl un sh lo g t :
  keeps t (description_row nm rl un sh lo g t).2
  /\ (keys_marked g -> keys_marked (description_row nm rl un sh lo g t).1).
Proof.
  unfold description_row.
  destruct (bool_decide (0 < length nm) && bool_decide (head nm = Some "#"%char)).
  { split; [|done]. unfold keeps. cbn.
    repeat split; try done; apply set_nonempty_dom. }
  destruct (bool_decide (lt_sign ∈ nm)) eqn:Hnm.
  { apply bool_decide_eq_true in Hnm.
    destruct (bool_decide (length rl ≠ 0) && bool_decide (head rl = Some bar)).
    - destruct (g !! nm) as [old|]; [destruct (bool_decide (old = []))|];
        (split; [unfold keeps; cbn; repeat split; try done; apply set_nonempty_dom
                | cbn; by apply keys_marked_insert]).
    - split; [unfold keeps; cbn; repeat split; try done; apply set_nonempty_dom
             | cbn; by apply keys_marked_insert]. }
  destruct (bool_decide (lt_sign ∈ rl)) eqn:Hrl.
  { apply bool_decide_eq_true in Hrl.
    destruct (g !! rl) as [old|];
      (split; [unfold keeps; cbn; repeat split; try done; apply set_nonempty_dom
              | cbn; by apply keys_marked_insert]). }
  split; [|done]. unfold keeps. cbn.
  repeat split; try done; try apply set_nonempty_dom;
    rewrite dom_insert_L; set_solver.
Qed.

Lemma keeps_refl t : keeps t t.
Proof. unfold keeps. repeat split; done. Qed.

Lemma keeps_trans t1 t2 t3 : keeps t1 t2 -> keeps t2 t3 -> keeps t1 t3.
Proof.
  unfold keeps. intros (H0 & H1 & H2 & H3 & H4 & H5) (K0 & K1 & K2 & K3 & K4 & K5).
  repeat split; [congruence | set_solver..].
Qed.

Lemma read_row_keeps g line t row g' line' t' :
  read_row (g, line, t) row = Ok (g', line', t') ->
  keeps t t' /\ (keys_marked g -> keys_marked g').
Proof.
  destruct (decide (field_count_ok row)) as [Hok|Hbad];
    [|by rewrite (read_row_bad _ _ Hbad)].
  assert (H5 : forall c0 c1 c2 c3 c4,
             read_row (g, line, t) [c0; c1; c2; c3; c4] = Ok (g', line', t') ->
             keeps t t' /\ (keys_marked g -> keys_marked g')).
  { intros c0 c1 c2 c3 c4. destruct line as [|line].
    - rewrite (read_row_first _ g t) by (right; by right).
      intros [= <- _ <-]. split; [apply keeps_refl | done].
    - rewrite read_row_data. intros [= <- _ <-]. apply description_row_keeps. }
  destruct Hok as [H|[H|H]].
  - destruct row; [|done]. rewrite read_row_blank.
    intros [= <- _ <-]. split; [apply keeps_refl | done].
  - destruct row as [|c0 [|c1 [|c2 [|c3 [|? ?]]]]]; try done.
    rewrite read_row_four. apply H5.
  - destruct row as [|c0 [|c1 [|c2 [|c3 [|c4 [|? ?]]]]]]; try done. apply H5.
Qed.

Lemma read_rows_keeps rows g line t g' line' t' :
  read_rows rows (g, line, t) = Ok (g', line', t') ->
  keeps t t' /\ (keys_marked g -> keys_marked g').
Proof.
  revert g line t. induction rows as [|row rows IH]; intros g line t.
  - intros [= <- _ <-]. split; [apply keeps_refl | done].
  - cbn [read_rows].
    destruct (read_row (g, line, t) row) as [[[g1 line1] t1]|] eqn:E; [|done].
    cbn [mbind result_bind]. intros H.
    destruct (read_row_keeps _ _ _ _ _ _ _ E) as [Hk1 Hm1].
    destruct (IH _ _ _ H) as [Hk2 Hm2].
    split; [by eapply keeps_trans | auto].
Qed.

(** X23. Reading a description deletes nothing: when it returns, the
    registered names are as before and every key of the other
    dictionaries is still there. *)
Theorem read_description_keeps (rows : list (list str)) (t t' : tables)
    (g : gmap str str) :
  read_description rows t = Ok (g, t') -> keeps t t'.
Proof.
  unfold read_description.
  destruct (read_rows rows (∅, 0, t)) as [[[g1 line1] t1]|] eqn:E; [|done].
  cbn [mbind result_bind]. intros [= <- <-].
  by destruct (read_rows_keeps _ _ _ _ _ _ _ E).
Qed.

Lemma read_description_keeps_witness :
  let t := Tables {[ lit "GenP" := true ]} ∅ ∅ {[ lit "P" := lit "kW" ]} ∅ ∅ in
  exists g t',
    read_description
      [[lit "Name"; lit "Rule"; lit "Units"; lit "Short"];
       [lit "Q"; lit "reactive"; lit "kvar"; lit "Reactive power"]] t
    = Ok (g, t')
    /\ keeps t t'.
Proof.
  intros t. eexists _, _. split; [vm_compute; reflexivity|].
  eapply (read_description_keeps
            [[lit "Name"; lit "Rule"; lit "Units"; lit "Short"];
             [lit "Q"; lit "reactive"; lit "kvar"; lit "Reactive power"]] t).
  vm_compute. reflexivity.
Defined.

(** X24. Every key of the rule table a description gives carries a [<]. *)
Theorem read_description_keys (rows : list (list str)) (t t' : tables)
    (g : gmap str str) (k v : str) :
  read_description rows t = Ok (g, t') -> g !! k = Some v -> lt_sign ∈ k.
Proof.
  unfold read_description.
  destruct (read_rows rows (∅, 0, t)) as [[[g1 line1] t1]|] eqn:E; [|done].
  cbn [mbind result_bind]. intros [= <- <-].
  destruct (read_rows_keeps _ _ _ _ _ _ _ E) as [_ H].
  apply H. intros k' v' H'. by rewrite lookup_empty in H'.
Qed.

Lemma read_description_keys_witness : lt_sign ∈ lit "<Names>".
Proof.
  eapply (read_description_keys
            [[lit "Name"; lit "Rule"; lit "Units"; lit "Short"];
             [lit "Gen1P"; lit "<Names>"; lit "kW"; lit "Power"]]
            clear_names _ _ (lit "<Names>") (lit "Gen1P")).
  - vm_compute. reflexivity.
  - vm_compute. reflexivity.
Defined.

Lemma description_row_production nm rl un sh lo g t :
  lt_sign ∈ nm -> head nm ≠ Some "#"%char -> head rl ≠ Some bar ->
  (description_row nm rl un sh lo g t).1 = <[nm := rl]> g.
Proof.
  intros Hnm Hhash Hrl. unfold description_row.
  rewrite (bool_decide_eq_false_2 (head nm = Some "#"%char)) by done.
  rewrite andb_false_r, (bool_decide_eq_true_2 (lt_sign ∈ nm)) by done.
  rewrite (bool_decide_eq_false_2 (head rl = Some bar)) by done.
  by rewrite andb_false_r.
Qed.

Lemma description_row_append nm c old un sh lo g t :
  lt_sign ∈ nm -> head nm ≠ Some "#"%char -> g !! nm = Some old ->
  (description_row nm (bar :: c) un sh lo g t).1
  = <[nm := if bool_decide (old = []) then c else old ++ bar :: c]> g.
Proof.
  intros Hnm Hhash Hold. unfold description_row.
  rewrite (bool_decide_eq_false_2 (head nm = Some "#"%char)) by done.
  rewrite andb_false_r, (bool_decide_eq_true_2 (lt_sign ∈ nm)) by done.
  rewrite (bool_decide_eq_true_2 (length (bar :: c) ≠ 0)) by done.
  rewrite (bool_decide_eq_true_2 (head (bar :: c) = Some bar)) by done.
  cbn [andb]. rewrite Hold. by destruct (bool_decide (old = [])).
Qed.

(** X25. Alternatives are appended: after the header, a row that defines
    the nonterminal [nm] as [a], followed by a row for [nm] whose rule is
    [|c], leaves [nm] defined as [a|c], or as [c] when [a] is empty (the
    fields being free of surrounding whitespace). *)
Theorem read_description_appends (hdr : list str)
    (nm a c u1 s1 l1 u2 s2 l2 : str) (t : tables) :
  field_count_ok hdr ->
  strip nm = nm -> strip a = a -> strip (bar :: c) = bar :: c ->
  lt_sign ∈ nm -> head nm ≠ Some "#"%char -> head a ≠ Some bar ->
  exists t',
    read_description
      [hdr; [nm; a; u1; s1; l1]; [nm; bar :: c; u2; s2; l2]] t
    = Ok ({[ nm := if bool_decide (a = []) then c else a ++ bar :: c ]}, t').
Proof.
  intros Hhdr Hnm Ha Hc Hlt Hhash Hbar.
  unfold read_description. cbn [read_rows].
  rewrite (read_row_first _ _ _ Hhdr). cbn [mbind result_bind].
  rewrite read_row_data. cbn [mbind result_bind].
  rewrite read_row_data. cbn [mbind result_bind fst snd].
  rewrite Hnm, Ha, Hc.
  rewrite (description_row_production nm a) by done.
  rewrite (description_row_append nm c a) by (try done; apply lookup_insert_eq).
  rewrite insert_insert_eq. eexists. reflexivity.
Qed.

Lemma read_description_appends_witness :
  exists t',
    read_description
      [[lit "Name"; lit "Rule"; lit "Units"; lit "Short"];
       [lit "<X>"; lit "a"; []; []; []];
       [lit "<X>"; bar :: lit "c"; []; []; []]] clear_names
    = Ok ({[ lit "<X>" := lit "a|c" ]}, t').
Proof.
  apply (read_description_appends
           [lit "Name"; lit "Rule"; lit "Units"; lit "Short"]
           (lit "<X>") (lit "a") (lit "c") [] [] [] [] [] [] clear_names);
    try reflexivity.
  - right. left. reflexivity.
  - apply (bool_decide_unpack _). vm_compute. exact I.
  - discriminate.
  - discriminate.
Defined.

(** ** The registry *)

(** X27. Registration is an upsert: registering a name again replaces
    what the first registration stored, and registering the same data
    twice is registering it once. *)
Theorem name_upsert (nm un1 sh1 lo1 un2 sh2 lo2 : str) (t : tables) :
  (name nm un1 sh1 lo1 t ≫= name nm un2 sh2 lo2) = name nm un2 sh2 lo2 t.
Proof.
  unfold name. cbn [valid_name mbind result_bind named partnamed ruled unitd
                      shortd longd].
  by rewrite !insert_insert_eq.
Qed.

Lemma device_Ok nm :
  ~ Forall (fun c => c = underscore) nm -> exists d, device nm = Ok d.
Proof.
  intros H. unfold device. pose proof (parts_nil_iff nm) as Hnil.
  destruct (parts nm) as [|d l]; [destruct H; by apply Hnil|].
  exists d. apply index_0_cons.
Qed.

Lemma filter_result_Ok {A} (f : A -> result bool) l :
  (forall x, x ∈ l -> exists b, f x = Ok b) ->
  exists r, filter_result f l = Ok r.
Proof.
  induction l as [|x l IH]; intros H; [by eexists|].
  cbn [filter_result]. destruct (H x) as [b ->]; [by left|].
  destruct IH as [r ->]; [intros y Hy; apply H; by right|].
  cbn [mbind result_bind]. by eexists.
Qed.

(** X28. A registered name is listed: after [name(nm, ...)], for a name
    with a character other than an underscore, [names()] with its default
    patterns, when it returns, lists [nm]. *)
Theorem names_lists_registered (nm un sh lo : str) (t t' : tables)
    (r : list str) :
  ~ Forall (fun c => c = underscore) nm ->
  name nm un sh lo t = Ok t' ->
  names (lit "*") [] (lit "*") false t' = Ok r ->
  nm ∈ r.
Proof.
  intros Hnm Hname Hnames. injection Hname as <-. unfold names in Hnames.
  destruct (filter_result _ _) as [kept|] eqn:E; [|done].
  cbn [mbind result_bind] in Hnames. injection Hnames as <-.
  rewrite elem_of_sorted, (filter_result_elem_of _ _ _ E nm). split.
  - apply elem_of_elements, elem_of_dom. cbn [named].
    rewrite lookup_insert_eq. by eexists.
  - unfold names_filter. rewrite match_star_true.
    rewrite match_empty_pattern_nonempty by (intros ->; apply Hnm; constructor).
    cbn [negb]. destruct (device_Ok _ Hnm) as [d ->].
    cbn [mbind result_bind]. by rewrite match_star_true.
Qed.

Lemma names_lists_registered_witness :
  lit "Gen1P" ∈ [lit "Gen1P"].
Proof.
  apply (names_lists_registered (lit "Gen1P") (lit "kW") (lit "power") []
           clear_names
           (Tables {[ lit "Gen1P" := true ]} ∅ ∅ {[ lit "Gen1P" := lit "kW" ]}
                   {[ lit "Gen1P" := lit "power" ]} {[ lit "Gen1P" := [] ]})
           [lit "Gen1P"]).
  - intros H. apply Forall_cons in H as [H _]. discriminate H.
  - vm_compute. reflexivity.
  - vm_compute. reflexivity.
Defined.

(** ** Units and descriptions *)

(** X29. A parameter has the units of its quantity: for a name that is
    not itself a parameter, [units(nm + "Pa")] is [units(nm)], whatever
    the tables hold. *)
Theorem units_parameter (nm : str) (t : tables) :
  is_parameter nm = Ok false -> units (nm ++ lit "Pa") t = units nm t.
Proof.
  intros H. unfold units. rewrite kind_app_Pa. unfold kind. by rewrite H.
Qed.

Lemma units_parameter_witness :
  units (lit "Pv1MaxPPa") (Tables ∅ ∅ ∅ {[ lit "P" := lit "kW" ]} ∅ ∅)
  = units (lit "Pv1MaxP") (Tables ∅ ∅ ∅ {[ lit "P" := lit "kW" ]} ∅ ∅).
Proof.
  apply (units_parameter (lit "Pv1MaxP")). reflexivity.
Defined.

(** X30. The short description of a name written as matches of the part
    pattern one after the other is the descriptions of these parts,
    joined by spaces, a part without description standing for itself. *)
Theorem short_of_parts (ps : list str) (t : tables) :
  Forall part_shape ps ->
  short (concat ps) t
  = join [space]
      (map (fun pn => match shortd t !! pn with Some d => d | None => pn end) ps).
Proof. intros H. unfold short. by rewrite (parts_concat_shapes _ H). Qed.

Lemma short_of_parts_witness :
  short (lit "Gen1P") (Tables ∅ ∅ ∅ ∅ {[ lit "P" := lit "Power" ]} ∅)
  = lit "Gen1 Power".
Proof.
  rewrite (short_of_parts [lit "Gen1"; lit "P"]).
  - vm_compute. reflexivity.
  - repeat constructor.
    + exists "G"%char, (lit "en1"). repeat split; reflexivity.
    + exists "P"%char, []. repeat split; reflexivity.
Defined.

(** ** Commented rows *)

Lemma description_row_rules nm rl un sh lo un' sh' lo' g t t' :
  (description_row nm rl un sh lo g t).1
  = (description_row nm rl un' sh' lo' g t').1.
Proof.
  unfold description_row.
  destruct (_ && _); [done|].
  destruct (bool_decide (lt_sign ∈ nm)).
  { destruct (_ && _); [|done].
    destruct (g !! nm) as [old|]; [by destruct (bool_decide (old = []))|done]. }
  destruct (bool_decide (lt_sign ∈ rl)); [|done].
  by destruct (g !! rl).
Qed.

Lemma read_row_rules row g l1 l2 t1 t2 :
  same_rules (read_row (g, S l1, t1) row) (read_row (g, S l2, t2) row).
Proof.
  destruct (decide (field_count_ok row)) as [Hok|Hbad];
    [|by rewrite !(read_row_bad _ _ Hbad)].
  assert (H5 : forall c0 c1 c2 c3 c4,
             same_rules (read_row (g, S l1, t1) [c0; c1; c2; c3; c4])
                        (read_row (g, S l2, t2) [c0; c1; c2; c3; c4])).
  { intros. rewrite !read_row_data. cbn.
    split; [apply description_row_rules | done]. }
  destruct Hok as [H|[H|H]].
  - destruct row; [|done]. rewrite !read_row_blank. by cbn.
  - destruct row as [|c0 [|c1 [|c2 [|c3 [|? ?]]]]];
      solve [done | rewrite !read_row_four; apply H5].
  - destruct row as [|c0 [|c1 [|c2 [|c3 [|c4 [|? ?]]]]]];
      solve [done | apply H5].
Qed.

Lemma read_rows_rules rows g l1 l2 t1 t2 :
  same_rules (read_rows rows (g, S l1, t1)) (read_rows rows (g, S l2, t2)).
Proof.
  revert g l1 l2 t1 t2. induction rows as [|row rows IH]; intros; [by cbn|].
  cbn [read_rows]. pose proof (read_row_rules row g l1 l2 t1 t2) as H.
  destruct (read_row (g, S l1, t1) row) as [[[g1 [|k1]] u1]|e1],
           (read_row (g, S l2, t2) row) as [[[g2 [|k2]] u2]|e2];
    cbn in H; try done; try (by destruct H as (_ & ? & ?)).
  destruct H as (-> & _ & _). cbn [mbind result_bind]. apply IH.
Qed.

Lemma read_rows_app rows1 rows2 acc :
  read_rows (rows1 ++ rows2) acc = read_rows rows1 acc ≫= read_rows rows2.
Proof.
  revert acc. induction rows1 as [|row rows1 IH]; intros acc; [done|].
  cbn [app read_rows]. destruct (read_row acc row); [apply IH | done].
Qed.

Lemma read_row_line g line t row g' line' t' :
  read_row (g, line, t) row = Ok (g', line', t') -> line' = S line.
Proof.
  destruct (decide (field_count_ok row)) as [Hok|Hbad];
    [|by rewrite (read_row_bad _ _ Hbad)].
  assert (H5 : forall c0 c1 c2 c3 c4,
             read_row (g, line, t) [c0; c1; c2; c3; c4] = Ok (g', line', t') ->
             line' = S line).
  { intros c0 c1 c2 c3 c4. destruct line as [|line].
    - rewrite (read_row_first _ g t) by (right; by right). by intros [= _ <- _].
    - rewrite read_row_data. by intros [= _ <- _]. }
  destruct Hok as [H|[H|H]].
  - destruct row; [|done]. rewrite read_row_blank. by intros [= _ <- _].
  - destruct row as [|c0 [|c1 [|c2 [|c3 [|? ?]]]]];
      solve [done | rewrite read_row_four; apply H5].
  - destruct row as [|c0 [|c1 [|c2 [|c3 [|c4 [|? ?]]]]]];
      solve [done | apply H5].
Qed.

Lemma read_rows_line rows g line t g' line' t' :
  read_rows rows (g, line, t) = Ok (g', line', t') ->
  line' = line + length rows.
Proof.
  revert g line t. induction rows as [|row rows IH]; intros g line t.
  - intros [= _ <- _]. simpl. lia.
  - cbn [read_rows].
    destruct (read_row (g, line, t) row) as [[[g1 line1] t1]|] eqn:E; [|done].
    cbn [mbind result_bind]. intros H. apply IH in H.
    apply read_row_line in E. simpl. lia.
Qed.

(** X26. A commented row does not touch the rules: a five-field row whose
    name starts with [#], put anywhere after the first row, changes
    neither the rule table [read_description] returns nor the way it
    fails. *)
Theorem read_description_comment_row (rows1 rows2 : list (list str))
    (c0 c1 c2 c3 c4 : str) (t : tables) :
  rows1 ≠ [] -> head (strip c0) = Some "#"%char ->
  rules_of (read_description (rows1 ++ [c0; c1; c2; c3; c4] :: rows2) t)
  = rules_of (read_description (rows1 ++ rows2) t).
Proof.
  intros Hne Hhash. unfold read_description. rewrite !read_rows_app.
  destruct (read_rows rows1 (∅, 0, t)) as [[[g1 line1] t1]|] eqn:E; [|done].
  cbn [mbind result_bind].
  pose proof (read_rows_line _ _ _ _ _ _ _ E) as Hline.
  destruct line1 as [|l1]; [destruct rows1; [done | simpl in Hline; lia]|].
  cbn [read_rows]. rewrite read_row_data. cbn [mbind result_bind].
  assert (Hg : (description_row (strip c0) (strip c1) (strip c2) (strip c3)
                  (strip c4) g1 t1).1 = g1).
  { unfold description_row.
    rewrite (bool_decide_eq_true_2 (head (strip c0) = Some "#"%char)) by done.
    rewrite (bool_decide_eq_true_2 (0 < length (strip c0)))
      by (destruct (strip c0); [done | simpl; lia]).
    done. }
  rewrite Hg.
  pose proof (read_rows_rules rows2 g1 (S l1) l1
                (description_row (strip c0) (strip c1) (strip c2) (strip c3)
                   (strip c4) g1 t1).2 t1) as H.
  destruct (read_rows rows2 (g1, S (S l1), _)) as [[[g2 k2] u2]|e2],
           (read_rows rows2 (g1, S l1, t1)) as [[[g3 k3] u3]|e3];
    cbn in H; try done; cbn.
  - by destruct H as (-> & _).
  - by subst.
Qed.

Lemma read_description_comment_row_witness :
  rules_of (read_description
              ([[lit "Name"; lit "Rule"; lit "Units"; lit "Short"; lit "Long"]]
               ++ [lit "#<X>"; lit "a"; lit "kW"; []; []]
               :: [[lit "<X>"; lit "b"; []; []; []]]) clear_names)
  = Ok {[ lit "<X>" := lit "b" ]}.
Proof.
  rewrite (read_description_comment_row
             [[lit "Name"; lit "Rule"; lit "Units"; lit "Short"; lit "Long"]]
             [[lit "<X>"; lit "b"; []; []; []]]
             (lit "#<X>") (lit "a") (lit "kW") [] [] clear_names
             ltac:(discriminate) eq_refl).
  vm_compute. reflexivity.
Defined.

(** ** The expansion against its reference definition *)

Lemma find_not_elem c s : c ∉ s -> find c s = (-1)%Z.
Proof.
  induction s as [|x s IH]; [done|]. intros H. cbn [find].
  rewrite bool_decide_eq_false_2 by (intros ->; apply H; by left).
  rewrite IH by (intros Hin; apply H; by right). done.
Qed.

Lemma find_minus_one c s : find c s = (-1)%Z <-> c ∉ s.
Proof.
  split; [|apply find_not_elem]. intros H Hin. by apply (find_elem c s).
Qed.

(** [finished] says what the specification says: no [<] and no [|]. *)
Lemma finished_no_marker s : finished s = true <-> no_marker s.
Proof.
  unfold finished, no_marker.
  rewrite andb_true_iff, !bool_decide_eq_true, !find_minus_one. done.
Qed.

Lemma join_split sep s : join [sep] (split sep s) = s.
Proof.
  induction s as [|c r IH]; [done|]. cbn [split].
  destruct (split sep r) as [|h t] eqn:E; [by apply split_not_nil in E|].
  destruct (decide (c = sep)) as [->|Hc].
  - change (join [sep] ([] :: h :: t)) with ([] ++ [sep] ++ join [sep] (h :: t)).
    by rewrite IH.
  - destruct t as [|h' t].
    + cbn [join] in *. by rewrite IH.
    + change (join [sep] ((c :: h) :: h' :: t))
        with (c :: (h ++ [sep] ++ join [sep] (h' :: t))).
      change (join [sep] (h :: h' :: t))
        with (h ++ [sep] ++ join [sep] (h' :: t)) in IH.
      by rewrite IH.
Qed.

Lemma split_join sep ps :
  ps ≠ [] -> Forall (fun p => sep ∉ p) ps -> split sep (join [sep] ps) = ps.
Proof.
  intros Hne H. induction H as [|p ps Hp Hps IH]; [done|].
  destruct ps as [|q ps]; [by apply split_no_sep|].
  change (join [sep] (p :: q :: ps)) with (p ++ sep :: join [sep] (q :: ps)).
  rewrite split_app by done. by rewrite IH.
Qed.

(** The alternatives of a right-hand side are the pieces of [split]. *)
Lemma alternative_split c rhs : alternative c rhs <-> c ∈ split bar rhs.
Proof.
  split.
  - intros (ps & <- & Hps & Hc). rewrite split_join; [done | | done].
    intros ->. by apply elem_of_nil in Hc.
  - intros Hc. exists (split bar rhs). split; [apply join_split|].
    split; [|done]. apply Forall_forall. intros p. apply split_pieces_no_sep.
Qed.

(** [cut] finds the first occurrence. *)
Lemma cut_first old s a b :
  cut old s = Some (a, b) ->
  forall a' b', s = a' ++ old ++ b' -> length a <= length a'.
Proof.
  revert a b. induction s as [|c r IH]; intros a b; cbn [cut].
  - destruct (starts_with old []) as [rest|]; [|done].
    intros [= <- <-] a' b' _. simpl. lia.
  - destruct (starts_with old (c :: r)) as [rest|] eqn:E.
    + intros [= <- <-] a' b' _. simpl. lia.
    + destruct (cut old r) as [[a0 b0]|] eqn:E'; [|done].
      intros [= <- <-] a' b' Hs. destruct a' as [|x a'].
      * cbn [app] in Hs. apply starts_with_Some in Hs. congruence.
      * cbn [app] in Hs. injection Hs as _ Hr.
        specialize (IH _ _ eq_refl _ _ Hr). simpl. lia.
Qed.

Lemma cut_None old s : cut old s = None -> ~ occurs old s.
Proof.
  intros H Hocc. destruct (cut_occurs _ _ Hocc) as (a & b & Hab). congruence.
Qed.

(** [replace1] replaces the first occurrence, as the specification words
    it. *)
Lemma replace1_first lhs c s s' :
  first_replaced lhs c s s' <-> s' = replace1 lhs c s.
Proof.
  unfold replace1. split.
  - intros [(a & b & Hs & Hmin & ->)|[Hno ->]].
    + destruct (cut lhs s) as [[a1 b1]|] eqn:E;
        [|destruct (cut_None _ _ E); by exists a, b].
      pose proof (cut_Some _ _ _ _ E) as Hs1.
      pose proof (cut_first _ _ _ _ E _ _ Hs) as H1.
      pose proof (Hmin _ _ Hs1) as H2.
      rewrite Hs in Hs1. apply app_inj_1 in Hs1 as [-> Hb]; [|lia].
      by apply app_inv_head in Hb as ->.
    + destruct (cut lhs s) as [[a1 b1]|] eqn:E; [|done].
      destruct Hno. exists a1, b1. by apply cut_Some.
  - intros ->. destruct (cut lhs s) as [[a b]|] eqn:E.
    + left. exists a, b. split; [by apply cut_Some|].
      split; [by eapply cut_first | done].
    + right. split; [by apply cut_None | done].
Qed.

(** The strings the loops recurse on are the branches. *)
Lemma branch_branches rules s s' : branch rules s s' <-> s' ∈ branches rules s.
Proof.
  rewrite elem_of_branches. unfold branch. split.
  - intros (lhs & rhs & c & Hrule & Hc & Hs' & Hne).
    exists lhs, rhs, c. rewrite <- alternative_split, <- replace1_first. done.
  - intros (lhs & rhs & c & Hrule & Hc & Hs' & Hne).
    exists lhs, rhs, c. rewrite alternative_split, replace1_first. done.
Qed.

Lemma returns_all rules bs :
  (forall b, b ∈ bs -> exists r, returns rules b r) ->
  exists rs, Forall2 (returns rules) bs rs.
Proof.
  induction bs as [|b bs IH]; intros H; [by exists []|].
  destruct (H b) as [r Hr]; [by left|].
  destruct IH as [rs Hrs]; [intros b' Hb'; apply H; by right|].
  exists (r :: rs). by constructor.
Qed.

Lemma union_of_branches rules s rs x :
  Forall2 (returns rules) (branches rules s) rs ->
  x ∈ ⋃ rs
  <-> exists s' r', branch rules s s' /\ returns rules s' r' /\ x ∈ r'.
Proof.
  intros Hrs. rewrite elem_of_union_list. split.
  - intros (rb & Hrb & Hx).
    destruct (Forall2_elem_of_r _ _ _ _ Hrs Hrb) as (s' & Hs' & Hret).
    exists s', rb. by rewrite branch_branches.
  - intros (s' & r' & Hs' & Hret & Hx). apply branch_branches in Hs'.
    destruct (Forall2_elem_of_l _ _ _ _ Hrs Hs') as (rb & Hrb & Hret').
    exists rb. split; [done|].
    by rewrite (returns_functional _ _ _ _ Hret' Hret).
Qed.

(** C2. Grammar expansion follows the reference definition: for every
    rule table and string [s], [expand_rules] returns [r] exactly when,
    [s] containing no [<] and no [|], [r] is [{s}], and otherwise [r] is
    the union, over every rule and every [|]-separated alternative [c] of
    its right-hand side, of what [expand_rules] returns on [s] with the
    first occurrence of the left-hand side replaced by [c], the
    replacements that leave [s] unchanged contributing nothing. *)
Theorem expand_rules_reference (rules : gmap str str) (s : str) (r : gset str) :
  returns rules s r <-> expansion_reference rules s r.
Proof.
  unfold expansion_reference. split.
  - intros Hret. split.
    + intros Hs%finished_no_marker. by apply (returns_finished _ _ _ Hret).
    + intros Hs. rewrite <- finished_no_marker in Hs.
      apply not_true_is_false in Hs.
      destruct (returns_branches _ _ _ Hret Hs) as (rs & Hrs & ->). split.
      * intros s' Hs'%branch_branches.
        destruct (Forall2_elem_of_l _ _ _ _ Hrs Hs') as (r' & _ & Hr').
        by exists r'.
      * intros x. by apply union_of_branches.
  - intros [Hfin Hunf]. destruct (finished s) eqn:E.
    + rewrite (Hfin (proj1 (finished_no_marker s) E)).
      by apply returns_of_finished.
    + destruct Hunf as [Hall Hmem].
      { rewrite <- finished_no_marker. congruence. }
      destruct (returns_all rules (branches rules s)) as [rs Hrs].
      { intros b Hb. apply Hall. by apply branch_branches. }
      assert (r = ⋃ rs) as ->.
      { apply set_eq. intros x.
        by rewrite Hmem, (union_of_branches _ _ _ _ Hrs). }
      by apply returns_of_branches.
Qed.

(** On [<s> ::= hello|world], the reference definition puts ["world"] in
    the expansion of a branch of [<s>]: [<s>] with an alternative in the
    place of its first [<s>]. *)
Lemma expand_rules_reference_witness :
  exists s' r',
    branch {[ lit "<s>" := lit "hello|world" ]} (lit "<s>") s'
    /\ returns {[ lit "<s>" := lit "hello|world" ]} s' r'
    /\ lit "world" ∈ r'.
Proof.
  assert (Hret : returns {[ lit "<s>" := lit "hello|world" ]} (lit "<s>")
                   {[ lit "hello"; lit "world" ]})
    by (exists 2; vm_compute; reflexivity).
  apply (expand_rules_reference _ _ _) in Hret as [_ Hunf].
  destruct Hunf as [_ Hmem].
  { intros [Hlt _]. apply Hlt. by left. }
  apply Hmem. apply elem_of_union. right. by apply elem_of_singleton.
Defined.

(** The expansion of [<s>] under [<s> ::= hello] is [{"hello"}]. *)
Example expand_rules_hello :
  returns {[ lit "<s>" := lit "hello" ]} (lit "<s>") {[ lit "hello" ]}.
Proof. exists 2. vm_compute. reflexivity. Qed.
